(** * HC32L110 embedded-flash driver: a shallow embedding and its properties

    The development follows [src/flash/nor/hc32l110.c].  The driver talks to
    the device only through 32-bit bus reads and writes, sleeps and the
    millisecond clock, so its behaviour is the sequence of those accesses
    (the trace) together with the value each entry point returns.

    Logging calls (LOG_DEBUG, LOG_INFO, LOG_ERROR) are left out: they touch
    neither the device nor the bank.  The status returned by
    [target_read_u32] and [target_write_u32] is discarded at every call site
    of the driver, so the bus primitives below return no status either. *)

From Stdlib Require Import ZArith List Bool Lia Sorted.
From Stdlib Require Import Strings.Byte.
Import ListNotations.
Local Open Scope Z_scope.

(** ** Machine integers *)

(** Conversion to [uint32_t]. *)
Definition wrap32 (z : Z) : Z := z mod 2 ^ 32.

(** Conversion to [int] / [int32_t] (two's complement).  Overflow of signed
    arithmetic is undefined in C; the model wraps, and the theorems that
    depend on it carry the bounds that keep the arithmetic in range. *)
Definition to_int32 (z : Z) : Z := (z + 2 ^ 31) mod 2 ^ 32 - 2 ^ 31.

Definition INT_MAX : Z := 2 ^ 31 - 1.
Definition UINT_MAX : Z := 2 ^ 32 - 1.

(** ** Register map and constants (the #defines of the driver) *)

Definition HC32L110_FLASH_CR : Z := 0x40020020.
Definition HC32L110_FLASH_CR_BUSY : Z := Z.shiftl 1 4.
Definition HC32L110_FLASH_BYPASS : Z := 0x4002002C.
Definition HC32L110_FLASH_SLOCK : Z := 0x40020030.
Definition HC32L110_FLASH_SIZE : Z := 0x00100C70.

Definition FLASH_SECTOR_SIZE : Z := 512.
Definition SPROT_SEC_SIZE : Z := 4096.

Definition FLASH_OP_PROGRAM : Z := 1.
Definition FLASH_OP_ERASE_SECTOR : Z := 2.
Definition FLASH_OP_ERASE_CHIP : Z := 3.

(** The error codes come from the framework's headers; the driver only
    compares them with [ERROR_OK], so they are kept symbolic. *)
Inductive retcode : Type :=
| ERROR_OK
| ERROR_FLASH_OPERATION_FAILED
| ERROR_FLASH_SECTOR_NOT_ERASED.

(** ** The device as seen from the host *)

(** What the driver does to its environment, in order. [EvPoll] records each
    entry into the completion poller with the timeout it was given. *)
Inductive event : Type :=
| EvWrite (addr val : Z)
| EvRead (addr val : Z)
| EvSleep (ms : Z)
| EvPoll (timeout_ms : Z).

(** [struct target]: the device behind the debug transport. [read_reply a n]
    is the word the device returns when the [n]-th bus read of the session
    is made at address [a]. *)
Record target : Type := mkTarget { read_reply : Z -> nat -> Z }.

(** Host-side state threaded through the driver: the millisecond clock, the
    number of bus reads made so far, and the trace. *)
Record world : Type := mkWorld {
  now : Z;
  nreads : nat;
  trace : list event
}.

Definition emit (e : event) (w : world) : world :=
  {| now := now w; nreads := nreads w; trace := trace w ++ [e] |}.

Definition target_write_u32 (tgt : target) (addr val : Z) (w : world) : world :=
  emit (EvWrite addr (wrap32 val)) w.

Definition target_read_u32 (tgt : target) (addr : Z) (w : world) : Z * world :=
  let v := wrap32 (read_reply tgt addr (nreads w)) in
  (v, {| now := now w; nreads := S (nreads w);
         trace := trace w ++ [EvRead addr v] |}).

Definition timeval_ms (w : world) : Z := now w.

(** The clock advances by the time slept; bus accesses are taken to be
    instantaneous. This is an idealised clock: on a real host the clock also
    advances during bus accesses, so only upper bounds on the time slept and
    on the number of passes of the poll loop, and the values returned, carry
    over; no exact pass count is claimed below. *)
Definition alive_sleep (ms : Z) (w : world) : world :=
  {| now := now w + ms; nreads := nreads w; trace := trace w ++ [EvSleep ms] |}.

(** ** Flash bank descriptor ([struct flash_bank], [struct flash_sector]) *)

Record flash_sector : Type := mkSector {
  sec_offset : Z;
  sec_size : Z;
  is_erased : Z;
  is_protected : Z
}.

Record flash_bank : Type := mkBank {
  bank_target : target;
  base : Z;
  size : Z;
  num_sectors : Z;
  sectors : list flash_sector
}.

Definition hc32l110_flash_bank_command (bank : flash_bank) : retcode * flash_bank :=
  (ERROR_OK,
   {| bank_target := bank_target bank; base := 0x0000; size := 0x8000;
      num_sectors := num_sectors bank; sectors := sectors bank |}).

(** ** Unlock / bypass sequencer *)

Definition hc32l110_bypass (tgt : target) (w : world) : world :=
  let w := target_write_u32 tgt HC32L110_FLASH_BYPASS 0x5a5a w in
  target_write_u32 tgt HC32L110_FLASH_BYPASS 0xa5a5 w.

(** The body of [for (int i=start_sec; i<end_sec; i++) b|=(1<<i);] with [n]
    the number of indices left in [start_sec, end_sec). For [i] outside
    0..31 the C shift is undefined; the value the model takes there (0 for
    [i >= 32]) is that of no particular build, and every statement below
    about the value of a mask keeps the span below lock region 32. *)
Fixpoint sunlock_bits (n : nat) (i b : Z) : Z :=
  match n with
  | O => b
  | S n' => sunlock_bits n' (i + 1) (Z.lor b (to_int32 (Z.shiftl 1 i)))
  end.

(** The mask [b] that [hc32l110_sunlock] computes from its two [int]
    arguments. *)
Definition sunlock_mask (start_adr end_adr : Z) : Z :=
  let start_sec := Z.quot start_adr SPROT_SEC_SIZE in
  let end_sec :=
    Z.quot (to_int32 (to_int32 (end_adr + SPROT_SEC_SIZE) - 1)) SPROT_SEC_SIZE in
  sunlock_bits (Z.to_nat (end_sec - start_sec)) start_sec 0.

Definition hc32l110_sunlock (tgt : target) (start_adr end_adr : Z) (w : world) : world :=
  let b := sunlock_mask start_adr end_adr in
  let w := hc32l110_bypass tgt w in
  target_write_u32 tgt HC32L110_FLASH_SLOCK b w.

Definition hc32l110_slock_all (tgt : target) (w : world) : world :=
  let w := hc32l110_bypass tgt w in
  target_write_u32 tgt HC32L110_FLASH_SLOCK 0 w.

(** ** Completion poller *)

(** The [while (1)] loop of the poller. It leaves through one of its two
    [break]s; [None] only means that [fuel] iterations were not enough. *)
Fixpoint poll_loop (fuel : nat) (tgt : target) (endtime : Z) (w : world) : option world :=
  match fuel with
  | O => None
  | S fuel' =>
      let '(v, w1) := target_read_u32 tgt HC32L110_FLASH_CR w in
      if Z.land v HC32L110_FLASH_CR_BUSY =? 0 then Some w1
      else
        let w2 := alive_sleep 1 w1 in
        if timeval_ms w2 >=? endtime then Some w2
        else poll_loop fuel' tgt endtime w2
  end.

Definition hc32l110_check_flash_completion
    (fuel : nat) (tgt : target) (timeout_ms : Z) (w : world) : option (retcode * world) :=
  let w := emit (EvPoll timeout_ms) w in
  let endtime := timeval_ms w + timeout_ms in
  match poll_loop fuel tgt endtime w with
  | Some w' => Some (ERROR_OK, w')
  | None => None
  end.

(** ** Erase and program engines

    The two engines are written over the poller they call, so that the
    branches taken on a failed poll can be stated on their own; the driver's
    entry points below instantiate it with [hc32l110_check_flash_completion]. *)

Section Engines.

Variable check_flash_completion : target -> Z -> world -> option (retcode * world).

(** The guard of the mass-erase branch of [hc32l110_erase]. *)
Definition is_mass_erase (first last nsec : Z) : bool :=
  (Z.lor first last =? 0) || ((first =? 0) && (last >=? nsec)).

Definition mass_erase (tgt : target) (w : world) : option (retcode * world) :=
  let w := hc32l110_bypass tgt w in
  let w := target_write_u32 tgt HC32L110_FLASH_CR FLASH_OP_ERASE_CHIP w in
  let w := hc32l110_sunlock tgt 0 (32 * 1024) w in
  let w := target_write_u32 tgt 0 0 w in
  match check_flash_completion tgt 3500 w with
  | None => None
  | Some (ERROR_OK, w) =>
      let w := hc32l110_slock_all tgt w in
      Some (ERROR_OK, w)
  | Some (_, w) => Some (ERROR_FLASH_OPERATION_FAILED, w)
  end.

(** One pass of the body of the sector loop, up to and including the poll.
    For [x >= 128] the shift [1<<(x/4)] is undefined in C; statements below
    about the word written then keep [x] below 128. *)
Definition erase_sector (tgt : target) (bank_base x : Z) (w : world) : option (retcode * world) :=
  let adr := bank_base + wrap32 (x * FLASH_SECTOR_SIZE) in
  let w := hc32l110_bypass tgt w in
  let w := target_write_u32 tgt HC32L110_FLASH_CR FLASH_OP_ERASE_SECTOR w in
  let w := hc32l110_bypass tgt w in
  let w := hc32l110_sunlock tgt (to_int32 adr) (to_int32 (adr + FLASH_SECTOR_SIZE)) w in
  let w := target_write_u32 tgt HC32L110_FLASH_SLOCK (to_int32 (Z.shiftl 1 (x / 4))) w in
  let w := target_write_u32 tgt adr 0 w in
  check_flash_completion tgt 50 w.

(** [for (x = first; x < last; x++)], with [n] the number of sectors left in
    [x, last). A failed poll returns from the whole function. *)
Fixpoint erase_sectors (n : nat) (tgt : target) (bank_base x : Z) (w : world)
  : option (retcode * world) :=
  match n with
  | O => Some (ERROR_OK, w)
  | S n' =>
      match erase_sector tgt bank_base x w with
      | None => None
      | Some (ERROR_OK, w) => erase_sectors n' tgt bank_base (x + 1) w
      | Some (_, w) => Some (ERROR_FLASH_SECTOR_NOT_ERASED, w)
      end
  end.

Definition sector_erase (tgt : target) (bank_base first last : Z) (w : world)
  : option (retcode * world) :=
  match erase_sectors (Z.to_nat (last - first)) tgt bank_base first w with
  | None => None
  | Some (ERROR_OK, w) =>
      let w := hc32l110_slock_all tgt w in
      Some (ERROR_OK, w)
  | Some (rc, w) => Some (rc, w)
  end.

Definition erase_with (bank : flash_bank) (first last : Z) (w : world)
  : option (retcode * world) :=
  let tgt := bank_target bank in
  if is_mass_erase first last (num_sectors bank)
  then mass_erase tgt w
  else sector_erase tgt (base bank) first last w.

(** [buffer[i]] as an unsigned value. *)
Definition buffer_get (buffer : list byte) (i : Z) : Z :=
  Z.of_N (Byte.to_N (nth (Z.to_nat i) buffer x00)).

(** One pass of the inner loop [for (int b=0; b<4; b++)]. *)
Definition gather_step (buffer : list byte) (count x : Z) (v b : Z) : Z :=
  let v := Z.shiftr v 8 in
  if (to_int32 (x + b) <? to_int32 count) && (to_int32 (x + b) >=? 0)
  then Z.lor v (wrap32 (Z.shiftl (buffer_get buffer (to_int32 (x + b))) 24))
  else Z.lor v 0xFF000000.

(** The word [v] gathered for loop index [x]. *)
Definition gather_word (buffer : list byte) (count x : Z) : Z :=
  fold_left (gather_step buffer count x) [0; 1; 2; 3] 0.

(** [for (int x = -neg_start; x < (int32_t)count; x += 4)]. [None] only means
    that [fuel] iterations were not enough. *)
Fixpoint write_words (fuel : nat) (tgt : target) (buffer : list byte)
    (offset count x : Z) (w : world) : option (retcode * world) :=
  match fuel with
  | O => None
  | S fuel' =>
      if x <? to_int32 count then
        let v := gather_word buffer count x in
        let w := target_write_u32 tgt (wrap32 (offset + x)) v w in
        match check_flash_completion tgt 1 w with
        | None => None
        | Some (ERROR_OK, w) =>
            write_words fuel' tgt buffer offset count (to_int32 (x + 4)) w
        | Some (_, w) => Some (ERROR_FLASH_OPERATION_FAILED, w)
        end
      else Some (ERROR_OK, w)
  end.

(** [~3] seen as a [uint32_t]. *)
Definition NOT3 : Z := 0xFFFFFFFC.

Definition write_single_with (fuel : nat) (bank : flash_bank) (buffer : list byte)
    (offset count : Z) (w : world) : option (retcode * world) :=
  let tgt := bank_target bank in
  let w := hc32l110_bypass tgt w in
  let w := target_write_u32 tgt HC32L110_FLASH_CR FLASH_OP_PROGRAM w in
  let w := hc32l110_sunlock tgt (to_int32 (Z.land offset NOT3))
             (to_int32 (Z.land (wrap32 (offset + count + 3)) NOT3)) w in
  let neg_start := offset mod 4 in
  match write_words fuel tgt buffer offset count (to_int32 (wrap32 (- neg_start))) w with
  | None => None
  | Some (ERROR_OK, w) =>
      let w := hc32l110_slock_all tgt w in
      Some (ERROR_OK, w)
  | Some (rc, w) => Some (rc, w)
  end.

Definition write_with (fuel : nat) (bank : flash_bank) (buffer : list byte)
    (offset count : Z) (w : world) : option (retcode * world) :=
  match write_single_with fuel bank buffer offset count w with
  | None => None
  | Some (ERROR_OK, w) => Some (ERROR_OK, w)
  | Some (_, w) => Some (ERROR_FLASH_OPERATION_FAILED, w)
  end.

End Engines.

(** The driver's entry points. [fuel] bounds the iterations of the poll loop
    and of the word loop. *)
Definition hc32l110_erase (fuel : nat) (bank : flash_bank) (first last : Z) (w : world)
  : option (retcode * world) :=
  erase_with (hc32l110_check_flash_completion fuel) bank first last w.

Definition hc32l110_write_single (fuel : nat) (bank : flash_bank) (buffer : list byte)
    (offset count : Z) (w : world) : option (retcode * world) :=
  write_single_with (hc32l110_check_flash_completion fuel) fuel bank buffer offset count w.

Definition hc32l110_write (fuel : nat) (bank : flash_bank) (buffer : list byte)
    (offset count : Z) (w : world) : option (retcode * world) :=
  write_with (hc32l110_check_flash_completion fuel) fuel bank buffer offset count w.

(** ** Geometry prober *)

(** The loop that fills [bank->sectors], with [n] the number of entries left
    and [offset] the running [uint32_t] offset. *)
Fixpoint fill_sectors (n : nat) (offset : Z) : list flash_sector :=
  match n with
  | O => []
  | S n' =>
      let s := {| sec_offset := offset; sec_size := FLASH_SECTOR_SIZE;
                  is_erased := -1; is_protected := 0 |} in
      s :: fill_sectors n' (wrap32 (offset + sec_size s))
  end.

Definition hc32l110_probe (bank : flash_bank) (w : world) : retcode * flash_bank * world :=
  let tgt := bank_target bank in
  let '(flash_size, w) := target_read_u32 tgt HC32L110_FLASH_SIZE w in
  if (flash_size >? 32768) || (flash_size <? 4096)
  then (ERROR_FLASH_OPERATION_FAILED, bank, w)
  else
    let nsec := flash_size / FLASH_SECTOR_SIZE in
    (ERROR_OK,
     {| bank_target := tgt; base := base bank; size := flash_size;
        num_sectors := nsec; sectors := fill_sectors (Z.to_nat nsec) 0 |},
     w).

(** ** Reading traces *)

Definition world0 : world := {| now := 0; nreads := 0; trace := [] |}.

(** The bus writes of a trace, in order. *)
Fixpoint writes (tr : list event) : list (Z * Z) :=
  match tr with
  | [] => []
  | EvWrite a v :: tr' => (a, v) :: writes tr'
  | _ :: tr' => writes tr'
  end.

(** The timeouts of the polls of a trace, in order. *)
Fixpoint polls (tr : list event) : list Z :=
  match tr with
  | [] => []
  | EvPoll t :: tr' => t :: polls tr'
  | _ :: tr' => polls tr'
  end.

(** The last word written to a register along a trace, whether or not the
    device took the write (see [lock_step] for the lock register as the
    device keeps it). *)
Definition held (addr : Z) (tr : list event) : option Z :=
  fold_left (fun cur e =>
               match e with
               | EvWrite a v => if a =? addr then Some v else cur
               | _ => cur
               end) tr None.

Definition bypass_handshake : list event :=
  [EvWrite HC32L110_FLASH_BYPASS 0x5a5a; EvWrite HC32L110_FLASH_BYPASS 0xa5a5].

Definition relock_sequence : list event :=
  bypass_handshake ++ [EvWrite HC32L110_FLASH_SLOCK 0].

(** Every write to the lock register comes right after the handshake. *)
Definition lock_writes_bypassed (tr : list event) : Prop :=
  forall pre v post,
    tr = pre ++ EvWrite HC32L110_FLASH_SLOCK v :: post ->
    exists pre', pre = pre' ++ bypass_handshake.

(** Byte [k] of a little-endian word. *)
Definition byte_of (v k : Z) : Z := Z.land (Z.shiftr v (8 * k)) 0xFF.

(** The 4-byte-aligned addresses of [lo, hi), ascending. *)
Definition aligned_span (lo hi : Z) : list Z :=
  map (fun k => lo + 4 * Z.of_nat k) (seq 0 (Z.to_nat ((hi - lo) / 4))).

(** Devices used in the examples: one whose control register always reads
    busy, one that is never busy. *)
Definition always_busy : target := {| read_reply := fun _ _ => HC32L110_FLASH_CR_BUSY |}.
Definition never_busy : target := {| read_reply := fun _ _ => 0 |}.

Definition bank32k (tgt : target) : flash_bank :=
  {| bank_target := tgt; base := 0; size := 32768; num_sectors := 64;
     sectors := fill_sectors 64 0 |}.

(** Events that are neither bus writes nor poll entries: what the poller
    itself produces after its entry. *)
Definition quiet (evs : list event) : Prop := writes evs = [] /\ polls evs = [].

(** The bus writes [hc32l110_erase] makes before the poll: on the mass-erase
    branch, and for sector [x] on the per-sector branch. *)
Definition mass_prologue : list event :=
  bypass_handshake ++ [EvWrite HC32L110_FLASH_CR FLASH_OP_ERASE_CHIP] ++
  bypass_handshake ++ [EvWrite HC32L110_FLASH_SLOCK 0xFF; EvWrite 0 0].

Definition sector_prologue (bank_base x : Z) : list event :=
  let adr := bank_base + wrap32 (x * FLASH_SECTOR_SIZE) in
  bypass_handshake ++ [EvWrite HC32L110_FLASH_CR FLASH_OP_ERASE_SECTOR] ++
  bypass_handshake ++ bypass_handshake ++
  [EvWrite HC32L110_FLASH_SLOCK
     (wrap32 (sunlock_mask (to_int32 adr) (to_int32 (adr + FLASH_SECTOR_SIZE))));
   EvWrite HC32L110_FLASH_SLOCK (wrap32 (to_int32 (Z.shiftl 1 (x / 4))));
   EvWrite adr 0].

(** The bus writes [hc32l110_write_single] makes before its word loop. *)
Definition write_prologue (offset count : Z) : list event :=
  bypass_handshake ++ [EvWrite HC32L110_FLASH_CR FLASH_OP_PROGRAM] ++
  bypass_handshake ++
  [EvWrite HC32L110_FLASH_SLOCK
     (wrap32 (sunlock_mask (to_int32 (Z.land offset NOT3))
                           (to_int32 (Z.land (wrap32 (offset + count + 3)) NOT3))))].

(** The word loop in closed form: the number of passes for a range that fits
    the loop's signed index, and the (address, word) pair of pass [j]. *)
Definition word_count (offset count : Z) : nat :=
  Z.to_nat ((count + offset mod 4 + 3) / 4).

Definition program_words (buffer : list byte) (offset count : Z) : list (Z * Z) :=
  map (fun j => (Z.land offset NOT3 + 4 * Z.of_nat j,
                 wrap32 (gather_word buffer count (- (offset mod 4) + 4 * Z.of_nat j))))
      (seq 0 (word_count offset count)).

(** A poller that reports a failure at every call. The driver's own poller
    never does; this one only serves to run the engines' failure branches. *)
Definition failing_poller (tgt : target) (timeout_ms : Z) (w : world)
  : option (retcode * world) :=
  Some (ERROR_FLASH_OPERATION_FAILED, emit (EvPoll timeout_ms) w).

(** A device whose every read returns [r]. *)
Definition reporting (r : Z) : target := {| read_reply := fun _ _ => r |}.

(** The address span meets the 4 KiB lock region number [i]. *)
Definition span_meets_region (start_addr end_addr i : Z) : Prop :=
  exists a, start_addr <= a < end_addr /\
            i * SPROT_SEC_SIZE <= a < (i + 1) * SPROT_SEC_SIZE.

(** ** Further vocabulary for traces *)

(** Total time slept along a trace. *)
Fixpoint slept (tr : list event) : Z :=
  match tr with
  | [] => 0
  | EvSleep ms :: tr' => ms + slept tr'
  | _ :: tr' => slept tr'
  end.

(** The word the [n]-th bus read of the session returns when it is made at
    the control register, and whether that word has the busy bit set. *)
Definition cr_reading (tgt : target) (n : nat) : Z :=
  wrap32 (read_reply tgt HC32L110_FLASH_CR n).

Definition cr_busy (v : Z) : bool := negb (Z.land v HC32L110_FLASH_CR_BUSY =? 0).

(** [k] passes of the poll loop that found the device busy, the first of
    them making bus read number [n]: a read of the control register, then a
    sleep of 1 ms. *)
Fixpoint busy_rounds (tgt : target) (n k : nat) : list event :=
  match k with
  | O => []
  | S k' => EvRead HC32L110_FLASH_CR (cr_reading tgt n) :: EvSleep 1
            :: busy_rounds tgt (S n) k'
  end.

(** What follows a poll entry with timeout [t] up to the poller's return: no
    bus write, no further poll entry, and at most [max 1 t] ms of sleep. *)
Definition poll_part (t : Z) (evs : list event) : Prop :=
  quiet evs /\ 0 <= slept evs <= Z.max 1 t.

(** A trace made of rounds, one per element of [pros]: the events [p] of the
    round, then a poll with timeout [t]. *)
Fixpoint rounds (t : Z) (pros : list (list event)) (tr : list event) : Prop :=
  match pros with
  | [] => tr = []
  | p :: pros' =>
      exists evs rest,
        tr = p ++ EvPoll t :: evs ++ rest /\ poll_part t evs /\ rounds t pros' rest
  end.

(** The sector numbers [first, first + 1, ..., last - 1]. *)
Definition sector_range (first last : Z) : list Z :=
  map (fun k => first + Z.of_nat k) (seq 0 (Z.to_nat (last - first))).

(** Byte position [p] of the bank lies in sector [s]. *)
Definition in_sector (s : flash_sector) (p : Z) : Prop :=
  sec_offset s <= p < sec_offset s + sec_size s.

(** ** The lock register as the device keeps it *)





(** * Properties *)

(** ** Traces *)

Lemma writes_app (a b : list event) : writes (a ++ b) = writes a ++ writes b.
Proof.
  induction a as [|e a IH]; [reflexivity|].
  destruct e; simpl; rewrite IH; reflexivity.
Qed.

Lemma polls_app (a b : list event) : polls (a ++ b) = polls a ++ polls b.
Proof.
  induction a as [|e a IH]; [reflexivity|].
  destruct e; simpl; rewrite IH; reflexivity.
Qed.

Lemma quiet_app (a b : list event) : quiet a -> quiet b -> quiet (a ++ b).
Proof.
  intros [Ha Ha'] [Hb Hb']. split.
  - rewrite writes_app, Ha, Hb. reflexivity.
  - rewrite polls_app, Ha', Hb'. reflexivity.
Qed.

Lemma trace_bypass tgt w :
  trace (hc32l110_bypass tgt w) = trace w ++ bypass_handshake.
Proof. simpl. rewrite <- app_assoc. reflexivity. Qed.

Lemma trace_write tgt a v w :
  trace (target_write_u32 tgt a v w) = trace w ++ [EvWrite a (wrap32 v)].
Proof. reflexivity. Qed.

Lemma trace_sunlock tgt s e w :
  trace (hc32l110_sunlock tgt s e w) =
  trace w ++ bypass_handshake ++ [EvWrite HC32L110_FLASH_SLOCK (wrap32 (sunlock_mask s e))].
Proof.
  unfold hc32l110_sunlock. rewrite trace_write, trace_bypass, <- app_assoc. reflexivity.
Qed.

Lemma trace_slock_all tgt w :
  trace (hc32l110_slock_all tgt w) = trace w ++ relock_sequence.
Proof.
  unfold hc32l110_slock_all, relock_sequence.
  rewrite trace_write, trace_bypass, <- app_assoc. reflexivity.
Qed.

(** ** The poller *)

Lemma poll_loop_spec fuel : forall tgt endtime w,
  match poll_loop fuel tgt endtime w with
  | Some w' => exists evs, trace w' = trace w ++ evs /\ quiet evs
  | None => Z.of_nat fuel <= Z.max 0 (endtime - now w)
  end.
Proof.
  induction fuel as [|fuel IH]; intros tgt endtime w.
  - simpl. lia.
  - cbn [poll_loop target_read_u32].
    destruct (Z.land _ HC32L110_FLASH_CR_BUSY =? 0).
    + eexists. split; [reflexivity|]. split; reflexivity.
    + set (w2 := alive_sleep 1 _).
      destruct (timeval_ms w2 >=? endtime) eqn:Hdead.
      * exists [EvRead HC32L110_FLASH_CR (wrap32 (read_reply tgt HC32L110_FLASH_CR (nreads w)));
                EvSleep 1].
        split; [|split; reflexivity].
        subst w2. simpl. rewrite <- app_assoc. reflexivity.
      * specialize (IH tgt endtime w2).
        destruct (poll_loop fuel tgt endtime w2) as [w'|].
        -- destruct IH as (evs & Htr & Hq).
           exists ([EvRead HC32L110_FLASH_CR
                      (wrap32 (read_reply tgt HC32L110_FLASH_CR (nreads w)));
                    EvSleep 1] ++ evs).
           split.
           ++ rewrite Htr. subst w2. simpl. rewrite <- !app_assoc. reflexivity.
           ++ apply quiet_app; [split; reflexivity | exact Hq].
        -- assert (Hnow : now w2 = now w + 1) by reflexivity.
           unfold timeval_ms in Hdead. lia.
Qed.

Lemma check_flash_completion_spec fuel tgt timeout_ms w :
  match hc32l110_check_flash_completion fuel tgt timeout_ms w with
  | Some (rc, w') =>
      rc = ERROR_OK /\
      exists evs, trace w' = trace w ++ EvPoll timeout_ms :: evs /\ quiet evs
  | None => Z.of_nat fuel <= Z.max 0 timeout_ms
  end.
Proof.
  unfold hc32l110_check_flash_completion.
  pose proof (poll_loop_spec fuel tgt
                (timeval_ms (emit (EvPoll timeout_ms) w) + timeout_ms)
                (emit (EvPoll timeout_ms) w)) as H.
  destruct (poll_loop _ _ _ _) as [w'|].
  - split; [reflexivity|].
    destruct H as (evs & Htr & Hq). exists evs. split; [|exact Hq].
    rewrite Htr. simpl. rewrite <- app_assoc. reflexivity.
  - unfold timeval_ms in H. simpl in H. lia.
Qed.

Lemma check_flash_completion_returns fuel tgt timeout_ms w :
  Z.max 0 timeout_ms < Z.of_nat fuel ->
  exists w' evs,
    hc32l110_check_flash_completion fuel tgt timeout_ms w = Some (ERROR_OK, w') /\
    trace w' = trace w ++ EvPoll timeout_ms :: evs /\ quiet evs.
Proof.
  intros Hfuel.
  pose proof (check_flash_completion_spec fuel tgt timeout_ms w) as H.
  destruct (hc32l110_check_flash_completion fuel tgt timeout_ms w) as [[rc w']|].
  - destruct H as (-> & evs & Htr & Hq). exists w', evs. auto.
  - lia.
Qed.

(** ** The erase engine *)

Lemma is_mass_erase_iff first last nsec :
  is_mass_erase first last nsec = true <->
  (first = 0 /\ last = 0) \/ (first = 0 /\ last >= nsec).
Proof.
  unfold is_mass_erase.
  rewrite orb_true_iff, andb_true_iff, !Z.eqb_eq, Z.geb_le, Z.lor_eq_0_iff.
  lia.
Qed.

Lemma mass_erase_spec fuel tgt w :
  match mass_erase (hc32l110_check_flash_completion fuel) tgt w with
  | Some (rc, w') =>
      rc = ERROR_OK /\
      exists evs,
        trace w' = trace w ++ mass_prologue ++ EvPoll 3500 :: evs ++ relock_sequence /\
        quiet evs
  | None => Z.of_nat fuel <= 3500
  end.
Proof.
  unfold mass_erase.
  match goal with
  | |- context [hc32l110_check_flash_completion fuel tgt 3500 ?w1] =>
      pose proof (check_flash_completion_spec fuel tgt 3500 w1) as H;
      assert (Hw1 : trace w1 = trace w ++ mass_prologue);
      [ | destruct (hc32l110_check_flash_completion fuel tgt 3500 w1) as [[rc w2]|] ]
  end.
  - rewrite trace_write, trace_sunlock, trace_write, trace_bypass.
    rewrite <- !app_assoc. reflexivity.
  - destruct H as (-> & evs & Htr & Hq). split; [reflexivity|].
    exists evs. split; [|exact Hq].
    rewrite trace_slock_all, Htr, Hw1, <- !app_assoc. reflexivity.
  - lia.
Qed.

Lemma erase_sector_spec fuel tgt bank_base x w :
  match erase_sector (hc32l110_check_flash_completion fuel) tgt bank_base x w with
  | Some (rc, w') =>
      rc = ERROR_OK /\
      exists evs,
        trace w' = trace w ++ sector_prologue bank_base x ++ EvPoll 50 :: evs /\
        quiet evs
  | None => Z.of_nat fuel <= 50
  end.
Proof.
  unfold erase_sector.
  match goal with
  | |- context [hc32l110_check_flash_completion fuel tgt 50 ?w1] =>
      pose proof (check_flash_completion_spec fuel tgt 50 w1) as H;
      assert (Hw1 : trace w1 = trace w ++ sector_prologue bank_base x);
      [ | destruct (hc32l110_check_flash_completion fuel tgt 50 w1) as [[rc w2]|] ]
  end.
  - rewrite !trace_write, trace_sunlock, trace_bypass, trace_write, trace_bypass.
    unfold sector_prologue. rewrite <- !app_assoc. reflexivity.
  - destruct H as (-> & evs & Htr & Hq). split; [reflexivity|].
    exists evs. split; [|exact Hq].
    rewrite Htr, Hw1, <- !app_assoc. reflexivity.
  - lia.
Qed.

Lemma polls_sector_prologue bank_base x : polls (sector_prologue bank_base x) = [].
Proof. reflexivity. Qed.

Lemma erase_sectors_spec fuel n : forall tgt bank_base x w,
  match erase_sectors (hc32l110_check_flash_completion fuel) n tgt bank_base x w with
  | Some (rc, w') =>
      rc = ERROR_OK /\
      exists evs, trace w' = trace w ++ evs /\ polls evs = repeat 50 n
  | None => Z.of_nat fuel <= 50
  end.
Proof.
  induction n as [|n IH]; intros tgt bank_base x w.
  - simpl. split; [reflexivity|]. exists []. rewrite app_nil_r. auto.
  - cbn [erase_sectors].
    pose proof (erase_sector_spec fuel tgt bank_base x w) as Hs.
    destruct (erase_sector _ tgt bank_base x w) as [[rc w1]|]; [|exact Hs].
    destruct Hs as (-> & evs & Htr & Hq1 & Hq2).
    specialize (IH tgt bank_base (x + 1) w1).
    destruct (erase_sectors _ n tgt bank_base (x + 1) w1) as [[rc w2]|]; [|exact IH].
    destruct IH as (-> & evs' & Htr' & Hp). split; [reflexivity|].
    exists ((sector_prologue bank_base x ++ EvPoll 50 :: evs) ++ evs'). split.
    + rewrite Htr', Htr, <- !app_assoc. reflexivity.
    + rewrite !polls_app, polls_sector_prologue. simpl. rewrite Hq2, Hp. reflexivity.
Qed.

Lemma sector_erase_spec fuel tgt bank_base first last w :
  match sector_erase (hc32l110_check_flash_completion fuel) tgt bank_base first last w with
  | Some (rc, w') =>
      rc = ERROR_OK /\
      exists evs,
        trace w' = trace w ++ evs ++ relock_sequence /\
        polls evs = repeat 50 (Z.to_nat (last - first))
  | None => Z.of_nat fuel <= 50
  end.
Proof.
  unfold sector_erase.
  pose proof (erase_sectors_spec fuel (Z.to_nat (last - first)) tgt bank_base first w) as H.
  destruct (erase_sectors _ _ tgt bank_base first w) as [[rc w1]|]; [|exact H].
  destruct H as (-> & evs & Htr & Hp). split; [reflexivity|].
  exists evs. split; [|exact Hp].
  rewrite trace_slock_all, Htr, <- app_assoc. reflexivity.
Qed.

Lemma erase_spec fuel bank first last w :
  match hc32l110_erase fuel bank first last w with
  | Some (rc, w') =>
      rc = ERROR_OK /\
      exists evs,
        if is_mass_erase first last (num_sectors bank)
        then trace w' = trace w ++ mass_prologue ++ EvPoll 3500 :: evs ++ relock_sequence /\
             quiet evs
        else trace w' = trace w ++ evs ++ relock_sequence /\
             polls evs = repeat 50 (Z.to_nat (last - first))
  | None => Z.of_nat fuel <= 3500
  end.
Proof.
  unfold hc32l110_erase, erase_with.
  destruct (is_mass_erase first last (num_sectors bank)).
  - apply mass_erase_spec.
  - pose proof (sector_erase_spec fuel (bank_target bank) (base bank) first last w) as H.
    destruct (sector_erase _ _ _ _ _ _) as [[rc w']|]; [exact H | lia].
Qed.

(** C5: the mass-erase branch is taken exactly when the request is (0, 0) or
    starts at 0 and reaches the last sector; on that branch the driver selects
    the chip-erase mode, unlocks the whole span [0, 32768) (mask 0xFF), writes
    the trigger to address 0 and polls once, with 3500 ms; on the other branch
    it polls once per sector of [first, last), each time with 50 ms. *)
Theorem erase_mass_or_sector fuel bank first last w :
  3500 < Z.of_nat fuel ->
  sunlock_mask 0 (32 * 1024) = 0xFF /\
  (is_mass_erase first last (num_sectors bank) = true <->
   (first = 0 /\ last = 0) \/ (first = 0 /\ last >= num_sectors bank)) /\
  exists w' evs,
    hc32l110_erase fuel bank first last w = Some (ERROR_OK, w') /\
    (((first = 0 /\ last = 0) \/ (first = 0 /\ last >= num_sectors bank)) ->
       trace w' = trace w ++
         [EvWrite HC32L110_FLASH_BYPASS 0x5a5a; EvWrite HC32L110_FLASH_BYPASS 0xa5a5;
          EvWrite HC32L110_FLASH_CR FLASH_OP_ERASE_CHIP;
          EvWrite HC32L110_FLASH_BYPASS 0x5a5a; EvWrite HC32L110_FLASH_BYPASS 0xa5a5;
          EvWrite HC32L110_FLASH_SLOCK 0xFF;
          EvWrite 0 0;
          EvPoll 3500] ++ evs ++ relock_sequence /\
       polls evs = [] /\ writes evs = []) /\
    (~ ((first = 0 /\ last = 0) \/ (first = 0 /\ last >= num_sectors bank)) ->
       trace w' = trace w ++ evs ++ relock_sequence /\
       polls evs = repeat 50 (Z.to_nat (last - first))).
Proof.
  intros Hfuel. split; [reflexivity|]. split; [apply is_mass_erase_iff|].
  pose proof (erase_spec fuel bank first last w) as H.
  pose proof (is_mass_erase_iff first last (num_sectors bank)) as Hiff.
  destruct (hc32l110_erase fuel bank first last w) as [[rc w']|]; [|lia].
  destruct H as (-> & evs & H). exists w', evs. split; [reflexivity|].
  destruct (is_mass_erase first last (num_sectors bank)).
  - split.
    + intros _. destruct H as (Htr & Hw & Hp). auto.
    + intros Hn. exfalso. apply Hn, Hiff. reflexivity.
  - split.
    + intros Hc. apply Hiff in Hc. discriminate.
    + intros _. exact H.
Qed.

Lemma erase_mass_or_sector_witness :
  exists w' evs,
    hc32l110_erase 4000 (bank32k always_busy) 0 64 world0 = Some (ERROR_OK, w') /\
    polls (trace w') = [3500] /\ polls evs = [] /\ now w' = 3500.
Proof.
  destruct (erase_mass_or_sector 4000 (bank32k always_busy) 0 64 world0 ltac:(simpl; lia))
    as (_ & _ & w' & evs & Hrun & Hmass & _).
  exists w', evs. split; [exact Hrun|].
  destruct (Hmass ltac:(right; simpl; lia)) as (Htr & Hp & _).
  split; [|split; [exact Hp|]].
  - rewrite Htr, !polls_app, Hp. reflexivity.
  - vm_compute in Hrun. injection Hrun as <-. reflexivity.
Defined.

(** C9: on the per-sector branch the erase call returns, and whatever it
    returns, the last bus accesses before it does are the bypass handshake
    followed by the write of 0 to the lock register. *)
Theorem sector_erase_ends_relocked fuel bank first last w :
  is_mass_erase first last (num_sectors bank) = false ->
  (50 < Z.of_nat fuel ->
   exists rc w', hc32l110_erase fuel bank first last w = Some (rc, w')) /\
  (forall rc w',
     hc32l110_erase fuel bank first last w = Some (rc, w') ->
     exists evs, trace w' = trace w ++ evs ++ relock_sequence).
Proof.
  intros Hsel.
  unfold hc32l110_erase, erase_with. rewrite Hsel.
  pose proof (sector_erase_spec fuel (bank_target bank) (base bank) first last w) as H.
  destruct (sector_erase _ _ _ _ _ _) as [[rc w']|].
  - destruct H as (-> & evs & Htr & _). split.
    + eauto.
    + intros rc w2 Heq. injection Heq as <- <-. eauto.
  - split; [lia | discriminate].
Qed.

Lemma sector_erase_ends_relocked_witness :
  exists rc w', hc32l110_erase 100 (bank32k never_busy) 2 3 world0 = Some (rc, w').
Proof.
  apply (sector_erase_ends_relocked 100 (bank32k never_busy) 2 3 world0).
  - reflexivity.
  - simpl; lia.
Defined.

(** ** Machine-integer facts *)

Lemma to_int32_small z : - 2 ^ 31 <= z <= INT_MAX -> to_int32 z = z.
Proof.
  unfold to_int32, INT_MAX. intros H.
  rewrite Z.mod_small by lia. lia.
Qed.

Lemma wrap32_small z : 0 <= z <= UINT_MAX -> wrap32 z = z.
Proof. unfold wrap32, UINT_MAX. intros H. apply Z.mod_small. lia. Qed.

Lemma wrap32_range z : 0 <= wrap32 z <= UINT_MAX.
Proof.
  unfold wrap32, UINT_MAX.
  pose proof (Z.mod_pos_bound z (2 ^ 32) ltac:(lia)). lia.
Qed.

Lemma neg_start_index offset :
  to_int32 (wrap32 (- (offset mod 4))) = - (offset mod 4).
Proof.
  pose proof (Z.mod_pos_bound offset 4 ltac:(lia)) as Hr.
  assert (Hcase : offset mod 4 = 0 \/ offset mod 4 = 1 \/
                  offset mod 4 = 2 \/ offset mod 4 = 3) by lia.
  destruct Hcase as [-> | [-> | [-> | ->]]]; reflexivity.
Qed.

Lemma land_NOT3 a : 0 <= a <= UINT_MAX -> Z.land a NOT3 = a - a mod 4.
Proof.
  intros Ha.
  assert (Hsh : a - a mod 4 = Z.shiftl (Z.shiftr a 2) 2).
  { rewrite Z.shiftl_mul_pow2, Z.shiftr_div_pow2 by lia.
    change (2 ^ 2) with 4. pose proof (Z.div_mod a 4 ltac:(lia)). lia. }
  rewrite Hsh.
  apply Z.bits_inj'. intros n Hn.
  rewrite Z.land_spec.
  change NOT3 with (Z.shiftl (Z.ones 30) 2).
  destruct (Z.ltb_spec n 2) as [Hlt | Hge].
  - rewrite !Z.shiftl_spec_low by lia. apply andb_false_r.
  - rewrite !Z.shiftl_spec by lia. rewrite Z.shiftr_spec by lia.
    replace (n - 2 + 2) with n by lia.
    destruct (Z.ltb_spec n 32) as [Hlt32 | Hge32].
    + rewrite Z.ones_spec_low by lia. apply andb_true_r.
    + rewrite Z.ones_spec_high by lia. rewrite andb_false_r.
      symmetry. destruct (Z.eq_dec a 0) as [-> | Hnz]; [apply Z.bits_0|].
      apply Z.bits_above_log2; [lia|].
      apply Z.log2_lt_pow2; [lia|].
      unfold UINT_MAX in Ha.
      apply Z.lt_le_trans with (2 ^ 32); [lia|].
      apply Z.pow_le_mono_r; lia.
Qed.

(** ** The program engine *)

Lemma write_words_rc pf tgt buffer offset count lf : forall x w rc w',
  write_words (hc32l110_check_flash_completion pf) lf tgt buffer offset count x w
    = Some (rc, w') ->
  rc = ERROR_OK.
Proof.
  induction lf as [|lf IH]; intros x w rc w' H; [discriminate|].
  cbn [write_words] in H.
  destruct (x <? to_int32 count).
  - match type of H with
    | context [hc32l110_check_flash_completion pf tgt 1 ?w1] =>
        pose proof (check_flash_completion_spec pf tgt 1 w1) as Hc;
        destruct (hc32l110_check_flash_completion pf tgt 1 w1) as [[rc1 w2]|];
        [|discriminate]
    end.
    destruct Hc as (-> & _). eapply IH; eassumption.
  - congruence.
Qed.

Lemma write_words_run pf tgt buffer offset count :
  1 < Z.of_nat pf -> 0 <= count <= INT_MAX - 3 ->
  forall (k lf : nat) x w,
    -3 <= x -> count <= x + 4 * Z.of_nat k < count + 4 -> (k < lf)%nat ->
    exists w' evs,
      write_words (hc32l110_check_flash_completion pf) lf tgt buffer offset count x w
        = Some (ERROR_OK, w') /\
      trace w' = trace w ++ evs /\
      writes evs =
        map (fun j => (wrap32 (offset + (x + 4 * Z.of_nat j)),
                       wrap32 (gather_word buffer count (x + 4 * Z.of_nat j))))
            (seq 0 k) /\
      polls evs = repeat 1 k.
Proof.
  intros Hpf Hc. unfold INT_MAX in Hc.
  assert (Hcnt : to_int32 count = count) by (apply to_int32_small; unfold INT_MAX; lia).
  induction k as [|k IH]; intros lf x w Hx Hk Hlf.
  - destruct lf as [|lf]; [lia|].
    cbn [write_words]. rewrite Hcnt.
    destruct (Z.ltb_spec x count) as [Hlt|_]; [lia|].
    exists w, []. rewrite app_nil_r. auto.
  - destruct lf as [|lf]; [lia|].
    cbn [write_words]. rewrite Hcnt.
    destruct (Z.ltb_spec x count) as [_|Hge]; [|lia].
    match goal with
    | |- context [hc32l110_check_flash_completion pf tgt 1 ?w1] =>
        destruct (check_flash_completion_returns pf tgt 1 w1 ltac:(lia))
          as (w2 & evs1 & Hrun & Htr1 & Hq1 & Hq2)
    end.
    rewrite Hrun.
    rewrite (to_int32_small (x + 4)) by (unfold INT_MAX; lia).
    destruct (IH lf (x + 4) w2 ltac:(lia) ltac:(lia) ltac:(lia))
      as (w' & evs2 & Hrun2 & Htr2 & Hw2 & Hp2).
    exists w'.
    exists ([EvWrite (wrap32 (offset + x)) (wrap32 (gather_word buffer count x))]
            ++ (EvPoll 1 :: evs1) ++ evs2).
    split; [exact Hrun2|]. split; [|split].
    + rewrite Htr2, Htr1, trace_write, <- !app_assoc. reflexivity.
    + rewrite !writes_app. cbn [writes]. rewrite Hq1, Hw2.
      cbn [seq map app]. f_equal.
      * rewrite Z.mul_0_r, Z.add_0_r. reflexivity.
      * rewrite <- seq_shift, map_map. apply map_ext. intros j.
        rewrite Nat2Z.inj_succ.
        replace (x + 4 * Z.succ (Z.of_nat j)) with (x + 4 + 4 * Z.of_nat j) by lia.
        reflexivity.
    + rewrite !polls_app. cbn [polls]. rewrite Hq2, Hp2. reflexivity.
Qed.

Lemma word_count_bounds offset count :
  0 <= count ->
  count <= - (offset mod 4) + 4 * Z.of_nat (word_count offset count) < count + 4.
Proof.
  intros Hc.
  pose proof (Z.mod_pos_bound offset 4 ltac:(lia)) as Hr.
  unfold word_count. rewrite Z2Nat.id by (apply Z.div_pos; lia).
  pose proof (Z.div_mod (count + offset mod 4 + 3) 4 ltac:(lia)).
  pose proof (Z.mod_pos_bound (count + offset mod 4 + 3) 4 ltac:(lia)). lia.
Qed.

Lemma write_single_run fuel bank buffer offset count w :
  0 <= offset -> 0 <= count <= INT_MAX - 3 -> offset + count + 3 <= UINT_MAX ->
  count / 4 + 2 < Z.of_nat fuel ->
  exists w' body,
    hc32l110_write_single fuel bank buffer offset count w = Some (ERROR_OK, w') /\
    trace w' = trace w ++ write_prologue offset count ++ body ++ relock_sequence /\
    writes body = program_words buffer offset count /\
    polls body = repeat 1 (word_count offset count).
Proof.
  intros Ho Hc Hend Hfuel. unfold INT_MAX, UINT_MAX in *.
  pose proof (Z.mod_pos_bound offset 4 ltac:(lia)) as Hr.
  pose proof (Z.div_mod offset 4 ltac:(lia)) as Hdm.
  unfold hc32l110_write_single, write_single_with.
  rewrite neg_start_index.
  pose proof (word_count_bounds offset count ltac:(lia)) as Hk.
  assert (Hkf : (word_count offset count < fuel)%nat).
  { unfold word_count.
    assert ((count + offset mod 4 + 3) / 4 <= count / 4 + 2).
    { rewrite <- (Z.div_add count 2 4) by lia.
      apply Z.div_le_mono; lia. }
    assert (0 <= (count + offset mod 4 + 3) / 4) by (apply Z.div_pos; lia).
    lia. }
  assert (Hpf : 1 < Z.of_nat fuel).
  { assert (0 <= count / 4) by (apply Z.div_pos; lia). lia. }
  match goal with
  | |- context [write_words _ fuel ?tgt buffer offset count _ ?w1] =>
      destruct (write_words_run fuel tgt buffer offset count Hpf
                  ltac:(unfold INT_MAX; lia)
                  (word_count offset count) fuel (- (offset mod 4)) w1
                  ltac:(lia) Hk Hkf)
        as (w' & body & Hrun & Htr & Hw & Hp);
      assert (Hw1 : trace w1 = trace w ++ write_prologue offset count)
  end.
  { rewrite trace_sunlock, trace_write, trace_bypass.
    unfold write_prologue. rewrite <- !app_assoc. reflexivity. }
  rewrite Hrun. eexists. exists body. split; [reflexivity|]. split; [|split].
  - rewrite trace_slock_all, Htr, Hw1, <- !app_assoc. reflexivity.
  - rewrite Hw. unfold program_words. apply map_ext_in. intros j Hj.
    apply in_seq in Hj. f_equal.
    rewrite land_NOT3 by (unfold UINT_MAX; lia).
    rewrite wrap32_small by (unfold UINT_MAX; lia). lia.
  - exact Hp.
Qed.

(** *** The addresses of the word loop *)

Lemma span_word_count offset count :
  0 <= offset -> 0 <= count -> offset + count + 3 <= UINT_MAX ->
  (Z.land (offset + count + 3) NOT3 - Z.land offset NOT3) / 4
  = (count + offset mod 4 + 3) / 4.
Proof.
  intros Ho Hc Hend.
  rewrite !land_NOT3 by lia.
  pose proof (Z.div_mod offset 4 ltac:(lia)) as Hdm.
  assert (Hmod : (offset + count + 3) mod 4 = (count + offset mod 4 + 3) mod 4).
  { replace (offset + count + 3) with (count + offset mod 4 + 3 + (offset / 4) * 4) by lia.
    apply Z.mod_add. lia. }
  rewrite Hmod.
  pose proof (Z.div_mod (count + offset mod 4 + 3) 4 ltac:(lia)) as Hdm'.
  replace (offset + count + 3 - (count + offset mod 4 + 3) mod 4 - (offset - offset mod 4))
    with ((count + offset mod 4 + 3) / 4 * 4) by lia.
  apply Z.div_mul. lia.
Qed.

Lemma program_words_addresses buffer offset count :
  0 <= offset -> 0 <= count -> offset + count + 3 <= UINT_MAX ->
  map fst (program_words buffer offset count)
  = aligned_span (Z.land offset NOT3) (Z.land (offset + count + 3) NOT3).
Proof.
  intros Ho Hc Hend.
  unfold program_words, aligned_span, word_count.
  rewrite map_map, span_word_count by assumption. reflexivity.
Qed.

Lemma aligned_span_sorted lo hi : StronglySorted Z.lt (aligned_span lo hi).
Proof.
  unfold aligned_span. generalize (Z.to_nat ((hi - lo) / 4)) as n. generalize 0%nat as s.
  intros s n. revert s.
  induction n as [|n IH]; intros s; cbn [seq map]; constructor.
  - apply IH.
  - apply Forall_forall. intros a Ha.
    apply in_map_iff in Ha. destruct Ha as (k & <- & Hk).
    apply in_seq in Hk. lia.
Qed.

Lemma aligned_span_In lo hi a :
  lo mod 4 = 0 -> hi mod 4 = 0 ->
  (In a (aligned_span lo hi) <-> lo <= a < hi /\ a mod 4 = 0).
Proof.
  intros Hlo Hhi. unfold aligned_span. rewrite in_map_iff. split.
  - intros (k & <- & Hk). apply in_seq in Hk.
    assert (Hq : Z.of_nat k < (hi - lo) / 4) by lia.
    pose proof (Z.div_mod (hi - lo) 4 ltac:(lia)) as Hdm.
    pose proof (Z.mod_pos_bound (hi - lo) 4 ltac:(lia)) as Hb.
    split; [lia|].
    replace (lo + 4 * Z.of_nat k) with (lo + Z.of_nat k * 4) by lia.
    rewrite Z.mod_add by lia. exact Hlo.
  - intros (Hr & Ha).
    pose proof (Z.div_mod a 4 ltac:(lia)) as Hda.
    pose proof (Z.div_mod lo 4 ltac:(lia)) as Hdl.
    pose proof (Z.div_mod hi 4 ltac:(lia)) as Hdh.
    exists (Z.to_nat (a / 4 - lo / 4)). split.
    + rewrite Z2Nat.id by lia. lia.
    + apply in_seq. split; [lia|].
      replace (hi - lo) with ((hi / 4 - lo / 4) * 4) by lia.
      rewrite Z.div_mul by lia. lia.
Qed.

Lemma land_NOT3_aligned a : 0 <= a <= UINT_MAX -> (Z.land a NOT3) mod 4 = 0.
Proof.
  intros Ha. rewrite land_NOT3 by assumption.
  pose proof (Z.div_mod a 4 ltac:(lia)) as Hdm.
  replace (a - a mod 4) with (a / 4 * 4) by lia.
  apply Z.mod_mul. lia.
Qed.

(** C3: for a range of [count > 0] bytes that fits the signed 32-bit index of
    the word loop and the 32-bit address space, the write call returns
    ERROR_OK and the words it writes between the unlock and the re-lock go to
    the 4-byte-aligned addresses of
    [offset & ~3, (offset + count + 3) & ~3), each exactly once, in ascending
    order. *)
Theorem write_covers_aligned_span fuel bank buffer offset count w :
  0 <= offset -> 0 < count <= INT_MAX - 3 -> offset + count + 3 <= UINT_MAX ->
  count / 4 + 2 < Z.of_nat fuel ->
  exists w' body,
    hc32l110_write_single fuel bank buffer offset count w = Some (ERROR_OK, w') /\
    trace w' = trace w ++ write_prologue offset count ++ body ++ relock_sequence /\
    map fst (writes body)
      = aligned_span (Z.land offset NOT3) (Z.land (offset + count + 3) NOT3) /\
    StronglySorted Z.lt (map fst (writes body)) /\
    (forall a, In a (map fst (writes body)) <->
               Z.land offset NOT3 <= a < Z.land (offset + count + 3) NOT3 /\
               a mod 4 = 0).
Proof.
  intros Ho Hc Hend Hfuel.
  destruct (write_single_run fuel bank buffer offset count w Ho ltac:(lia) Hend Hfuel)
    as (w' & body & Hrun & Htr & Hw & _).
  exists w', body. split; [exact Hrun|]. split; [exact Htr|].
  rewrite Hw, program_words_addresses by lia.
  split; [reflexivity|]. split; [apply aligned_span_sorted|].
  intros a. apply aligned_span_In; apply land_NOT3_aligned; lia.
Qed.

Lemma write_covers_aligned_span_witness :
  exists w' body,
    hc32l110_write_single 100 (bank32k never_busy) [xaa; xbb; xcc] 2 3 world0
      = Some (ERROR_OK, w') /\
    trace w' = trace world0 ++ write_prologue 2 3 ++ body ++ relock_sequence /\
    map fst (writes body) = [0; 4].
Proof.
  destruct (write_covers_aligned_span 100 (bank32k never_busy) [xaa; xbb; xcc] 2 3 world0)
    as (w' & body & Hrun & Htr & Hspan & _).
  - lia.
  - unfold INT_MAX; lia.
  - unfold UINT_MAX; lia.
  - simpl; lia.
  - exists w', body. split; [exact Hrun|]. split; [exact Htr|]. exact Hspan.
Defined.

(** *** The bytes of a gathered word *)

Lemma buffer_get_range buffer i : 0 <= buffer_get buffer i < 256.
Proof.
  unfold buffer_get.
  pose proof (Byte.to_N_bounded (nth (Z.to_nat i) buffer x00)). lia.
Qed.

Lemma lor_shift24 v B :
  0 <= v < 2 ^ 32 -> 0 <= B < 256 ->
  Z.lor (Z.shiftr v 8) (Z.shiftl B 24) = v / 256 + B * 2 ^ 24.
Proof.
  intros Hv HB.
  rewrite Z.shiftr_div_pow2, Z.shiftl_mul_pow2 by lia.
  change (2 ^ 8) with 256.
  assert (Hland : Z.land (v / 256) (B * 2 ^ 24) = 0);
    [| rewrite <- Z.lxor_lor, <- Z.add_nocarry_lxor by exact Hland; reflexivity].
  apply Z.bits_inj'. intros n Hn.
  rewrite Z.land_spec, Z.bits_0.
  destruct (Z.ltb_spec n 24) as [Hlt | Hge].
  - rewrite Z.mul_pow2_bits_low by lia. apply andb_false_r.
  - assert (Hq : 0 <= v / 256 < 2 ^ 24).
    { split; [apply Z.div_pos; lia|].
      apply Z.div_lt_upper_bound; [lia|]. change (256 * 2 ^ 24) with (2 ^ 32). lia. }
    destruct (Z.eq_dec (v / 256) 0) as [-> | Hnz]; [rewrite Z.bits_0; reflexivity|].
    rewrite (Z.bits_above_log2 (v / 256) n); [reflexivity | lia |].
    apply Z.lt_le_trans with 24; [apply Z.log2_lt_pow2; lia | lia].
Qed.

Lemma gather_step_value buffer count x v b :
  0 <= v < 2 ^ 32 -> - 2 ^ 31 <= x + b <= INT_MAX -> 0 <= count <= INT_MAX ->
  gather_step buffer count x v b
  = v / 256 +
    (if (x + b <? count) && (x + b >=? 0) then buffer_get buffer (x + b) else 0xFF)
    * 2 ^ 24.
Proof.
  intros Hv Hxb Hc. unfold gather_step.
  rewrite (to_int32_small (x + b)) by assumption.
  rewrite (to_int32_small count) by (unfold INT_MAX in *; lia).
  destruct ((x + b <? count) && (x + b >=? 0)).
  - pose proof (buffer_get_range buffer (x + b)) as HB.
    rewrite wrap32_small.
    + apply lor_shift24; assumption.
    + rewrite Z.shiftl_mul_pow2 by lia. unfold UINT_MAX. lia.
  - change 0xFF000000 with (Z.shiftl 0xFF 24). apply lor_shift24; lia.
Qed.

Lemma gather_word_value buffer count x :
  - 3 <= x <= INT_MAX - 3 -> 0 <= count <= INT_MAX ->
  let sel i := if (i <? count) && (i >=? 0) then buffer_get buffer i else 0xFF in
  gather_word buffer count x
  = sel (x + 0) + sel (x + 1) * 2 ^ 8 + sel (x + 2) * 2 ^ 16 + sel (x + 3) * 2 ^ 24.
Proof.
  intros Hx Hc sel. unfold INT_MAX in *.
  assert (Hsel : forall i, 0 <= sel i < 256).
  { intros i. unfold sel. destruct ((i <? count) && (i >=? 0));
      [apply buffer_get_range | lia]. }
  pose proof (Hsel (x + 0)) as H0. pose proof (Hsel (x + 1)) as H1.
  pose proof (Hsel (x + 2)) as H2. pose proof (Hsel (x + 3)) as H3.
  unfold gather_word. cbn [fold_left].
  rewrite (gather_step_value buffer count x 0 0) by (unfold INT_MAX; lia).
  fold (sel (x + 0)). change (0 / 256) with 0. rewrite Z.add_0_l.
  rewrite (gather_step_value buffer count x _ 1) by (unfold INT_MAX; lia).
  fold (sel (x + 1)).
  replace (sel (x + 0) * 2 ^ 24 / 256) with (sel (x + 0) * 2 ^ 16)
    by (change (2 ^ 24) with (2 ^ 16 * 256); rewrite Z.mul_assoc, Z.div_mul; lia).
  rewrite (gather_step_value buffer count x _ 2) by (unfold INT_MAX; lia).
  fold (sel (x + 2)).
  replace ((sel (x + 0) * 2 ^ 16 + sel (x + 1) * 2 ^ 24) / 256)
    with (sel (x + 0) * 2 ^ 8 + sel (x + 1) * 2 ^ 16)
    by (replace (sel (x + 0) * 2 ^ 16 + sel (x + 1) * 2 ^ 24)
          with ((sel (x + 0) * 2 ^ 8 + sel (x + 1) * 2 ^ 16) * 256) by lia;
        rewrite Z.div_mul; lia).
  rewrite (gather_step_value buffer count x _ 3) by (unfold INT_MAX; lia).
  fold (sel (x + 3)).
  replace ((sel (x + 0) * 2 ^ 8 + sel (x + 1) * 2 ^ 16 + sel (x + 2) * 2 ^ 24) / 256)
    with (sel (x + 0) + sel (x + 1) * 2 ^ 8 + sel (x + 2) * 2 ^ 16)
    by (replace (sel (x + 0) * 2 ^ 8 + sel (x + 1) * 2 ^ 16 + sel (x + 2) * 2 ^ 24)
          with ((sel (x + 0) + sel (x + 1) * 2 ^ 8 + sel (x + 2) * 2 ^ 16) * 256) by lia;
        rewrite Z.div_mul; lia).
  reflexivity.
Qed.

Lemma byte_of_word b0 b1 b2 b3 k :
  0 <= b0 < 256 -> 0 <= b1 < 256 -> 0 <= b2 < 256 -> 0 <= b3 < 256 ->
  0 <= k < 4 ->
  byte_of (b0 + b1 * 2 ^ 8 + b2 * 2 ^ 16 + b3 * 2 ^ 24) k
  = nth (Z.to_nat k) [b0; b1; b2; b3] 0.
Proof.
  intros H0 H1 H2 H3 Hk. unfold byte_of.
  rewrite Z.shiftr_div_pow2 by lia.
  change 0xFF with (Z.ones 8). rewrite Z.land_ones by lia.
  assert (Hcase : k = 0 \/ k = 1 \/ k = 2 \/ k = 3) by lia.
  destruct Hcase as [-> | [-> | [-> | ->]]]; simpl (nth _ _ _);
    match goal with
    | |- context [2 ^ (8 * ?c)] =>
        let p := eval cbv in (2 ^ (8 * c)) in change (2 ^ (8 * c)) with p
    end;
    change (2 ^ 8) with 256 in *; change (2 ^ 16) with 65536; change (2 ^ 24) with 16777216;
    Z.div_mod_to_equations; lia.
Qed.

Lemma program_words_bytes buffer offset count a v k :
  0 <= offset -> 0 <= count <= INT_MAX - 3 -> offset + count + 3 <= UINT_MAX ->
  In (a, v) (program_words buffer offset count) -> 0 <= k < 4 ->
  byte_of v k
  = if (offset <=? a + k) && (a + k <? offset + count)
    then buffer_get buffer (a + k - offset) else 0xFF.
Proof.
  intros Ho Hc Hend Hin Hk. unfold INT_MAX, UINT_MAX in *.
  pose proof (Z.mod_pos_bound offset 4 ltac:(lia)) as Hr.
  pose proof (word_count_bounds offset count ltac:(lia)) as Hwc.
  unfold program_words in Hin. apply in_map_iff in Hin.
  destruct Hin as (j & Heq & Hj). apply in_seq in Hj.
  pose proof (f_equal fst Heq) as Ha. pose proof (f_equal snd Heq) as Hv.
  cbn [fst snd] in Ha, Hv. clear Heq.
  rewrite land_NOT3 in Ha by (unfold UINT_MAX; lia).
  set (x := - (offset mod 4) + 4 * Z.of_nat j) in *.
  assert (Hx : -3 <= x <= INT_MAX - 3) by (unfold INT_MAX, x; lia).
  pose proof (gather_word_value buffer count x Hx ltac:(unfold INT_MAX; lia)) as Hg.
  cbv zeta in Hg.
  set (sel := fun i => if (i <? count) && (i >=? 0) then buffer_get buffer i else 0xFF) in *.
  assert (Hsel : forall i, 0 <= sel i < 256).
  { intros i. unfold sel. destruct ((i <? count) && (i >=? 0));
      [apply buffer_get_range | lia]. }
  pose proof (Hsel (x + 0)) as H0. pose proof (Hsel (x + 1)) as H1.
  pose proof (Hsel (x + 2)) as H2. pose proof (Hsel (x + 3)) as H3.
  rewrite Hg, wrap32_small in Hv by (unfold UINT_MAX; lia).
  subst v. rewrite byte_of_word by assumption.
  assert (Hnth : nth (Z.to_nat k) [sel (x + 0); sel (x + 1); sel (x + 2); sel (x + 3)] 0
                 = sel (x + k)).
  { assert (Hcase : k = 0 \/ k = 1 \/ k = 2 \/ k = 3) by lia.
    destruct Hcase as [-> | [-> | [-> | ->]]]; reflexivity. }
  rewrite Hnth. unfold sel.
  replace (a + k - offset) with (x + k) by lia.
  destruct (Z.ltb_spec (x + k) count), (Z.geb_spec (x + k) 0),
           (Z.leb_spec offset (a + k)), (Z.ltb_spec (a + k) (offset + count));
    cbn [andb]; try reflexivity; lia.
Qed.

(** C4: every word the program engine writes carries, in each of its four
    little-endian byte positions, the buffer byte of that bank position when
    the position lies in [offset, offset + count) and 0xFF otherwise; writing
    [0xAA, 0xBB, 0xCC] at offset 2 issues exactly the word 0xBBAAFFFF at
    address 0 and the word 0xFFFFFFCC at address 4. *)
Theorem write_word_bytes fuel bank w :
  (forall buffer offset count,
     0 <= offset -> 0 <= count <= INT_MAX - 3 -> offset + count + 3 <= UINT_MAX ->
     count / 4 + 2 < Z.of_nat fuel ->
     exists w' body,
       hc32l110_write_single fuel bank buffer offset count w = Some (ERROR_OK, w') /\
       trace w' = trace w ++ write_prologue offset count ++ body ++ relock_sequence /\
       forall a v k,
         In (a, v) (writes body) -> 0 <= k < 4 ->
         byte_of v k
         = if (offset <=? a + k) && (a + k <? offset + count)
           then buffer_get buffer (a + k - offset) else 0xFF) /\
  (2 < Z.of_nat fuel ->
   exists w' body,
     hc32l110_write_single fuel bank [xaa; xbb; xcc] 2 3 w = Some (ERROR_OK, w') /\
     trace w' = trace w ++ write_prologue 2 3 ++ body ++ relock_sequence /\
     writes body = [(0, 0xBBAAFFFF); (4, 0xFFFFFFCC)] /\
     map (byte_of 0xBBAAFFFF) [0; 1; 2; 3] = [0xFF; 0xFF; 0xAA; 0xBB] /\
     map (byte_of 0xFFFFFFCC) [0; 1; 2; 3] = [0xCC; 0xFF; 0xFF; 0xFF]).
Proof.
  split.
  - intros buffer offset count Ho Hc Hend Hfuel.
    destruct (write_single_run fuel bank buffer offset count w Ho Hc Hend Hfuel)
      as (w' & body & Hrun & Htr & Hw & _).
    exists w', body. split; [exact Hrun|]. split; [exact Htr|].
    intros a v k Hin Hk. rewrite Hw in Hin.
    eapply program_words_bytes; eassumption.
  - intros Hfuel.
    destruct (write_single_run fuel bank [xaa; xbb; xcc] 2 3 w)
      as (w' & body & Hrun & Htr & Hw & _);
      [lia | unfold INT_MAX; lia | unfold UINT_MAX; lia | simpl; lia |].
    exists w', body. split; [exact Hrun|]. split; [exact Htr|].
    split; [rewrite Hw; reflexivity|]. split; reflexivity.
Qed.

Lemma write_word_bytes_witness :
  exists w' body,
    hc32l110_write_single 100 (bank32k never_busy) [xaa; xbb; xcc] 2 3 world0
      = Some (ERROR_OK, w') /\
    trace w' = trace world0 ++ write_prologue 2 3 ++ body ++ relock_sequence /\
    forall a v k,
      In (a, v) (writes body) -> 0 <= k < 4 ->
      byte_of v k
      = if (2 <=? a + k) && (a + k <? 2 + 3)
        then buffer_get [xaa; xbb; xcc] (a + k - 2) else 0xFF.
Proof.
  apply (proj1 (write_word_bytes 100 (bank32k never_busy) world0)).
  - lia.
  - unfold INT_MAX; lia.
  - unfold UINT_MAX; lia.
  - simpl; lia.
Defined.

(** ** Return values *)

Lemma write_rc fuel bank buffer offset count w rc w' :
  hc32l110_write fuel bank buffer offset count w = Some (rc, w') -> rc = ERROR_OK.
Proof.
  unfold hc32l110_write, write_with, write_single_with.
  destruct (write_words _ _ _ _ _ _ _ _) as [[rc1 w1]|] eqn:Hloop; [|discriminate].
  apply write_words_rc in Hloop. subst rc1.
  intros H. injection H as <- _. reflexivity.
Qed.

Lemma write_returns fuel bank buffer offset count w :
  0 <= offset -> 0 <= count <= INT_MAX - 3 -> offset + count + 3 <= UINT_MAX ->
  count / 4 + 2 < Z.of_nat fuel ->
  exists w', hc32l110_write fuel bank buffer offset count w = Some (ERROR_OK, w').
Proof.
  intros Ho Hc Hend Hfuel.
  destruct (write_single_run fuel bank buffer offset count w Ho Hc Hend Hfuel)
    as (w' & body & Hrun & _).
  exists w'. unfold hc32l110_write, write_with.
  unfold hc32l110_write_single in Hrun. rewrite Hrun. reflexivity.
Qed.

(** C10: the completion poller returns ERROR_OK whenever it returns, and it
    does return, whatever the timeout and whatever the device answers; hence
    erase and write return ERROR_OK too, and never one of their failure
    codes. *)
Theorem poller_never_fails fuel :
  (forall tgt timeout_ms w,
     (forall rc w',
        hc32l110_check_flash_completion fuel tgt timeout_ms w = Some (rc, w') ->
        rc = ERROR_OK) /\
     (Z.max 0 timeout_ms < Z.of_nat fuel ->
      exists w',
        hc32l110_check_flash_completion fuel tgt timeout_ms w = Some (ERROR_OK, w'))) /\
  (forall bank first last w,
     (forall rc w', hc32l110_erase fuel bank first last w = Some (rc, w') ->
                    rc = ERROR_OK) /\
     (3500 < Z.of_nat fuel ->
      exists w', hc32l110_erase fuel bank first last w = Some (ERROR_OK, w'))) /\
  (forall bank buffer offset count w,
     (forall rc w', hc32l110_write fuel bank buffer offset count w = Some (rc, w') ->
                    rc = ERROR_OK) /\
     (0 <= offset -> 0 <= count <= INT_MAX - 3 -> offset + count + 3 <= UINT_MAX ->
      count / 4 + 2 < Z.of_nat fuel ->
      exists w', hc32l110_write fuel bank buffer offset count w = Some (ERROR_OK, w'))).
Proof.
  split; [|split].
  - intros tgt timeout_ms w. split.
    + intros rc w' H.
      pose proof (check_flash_completion_spec fuel tgt timeout_ms w) as Hs.
      rewrite H in Hs. apply Hs.
    + intros Hfuel.
      destruct (check_flash_completion_returns fuel tgt timeout_ms w Hfuel)
        as (w' & evs & Hrun & _).
      eauto.
  - intros bank first last w.
    pose proof (erase_spec fuel bank first last w) as Hs. split.
    + intros rc w' H. rewrite H in Hs. apply Hs.
    + intros Hfuel.
      destruct (hc32l110_erase fuel bank first last w) as [[rc w']|]; [|lia].
      destruct Hs as (-> & _). eauto.
  - intros bank buffer offset count w. split.
    + intros rc w'. apply write_rc.
    + apply write_returns.
Qed.

Lemma poller_never_fails_witness :
  (exists w', hc32l110_check_flash_completion 4000 always_busy 3500 world0
              = Some (ERROR_OK, w')) /\
  (exists w', hc32l110_erase 4000 (bank32k always_busy) 2 3 world0 = Some (ERROR_OK, w')) /\
  (exists w', hc32l110_write 4000 (bank32k always_busy) [xaa; xbb; xcc] 2 3 world0
              = Some (ERROR_OK, w')).
Proof.
  destruct (poller_never_fails 4000) as (Hpoll & Herase & Hwrite).
  split; [|split].
  - apply Hpoll. simpl; lia.
  - apply Herase. simpl; lia.
  - apply Hwrite; [lia | unfold INT_MAX; lia | unfold UINT_MAX; lia | simpl; lia].
Defined.

(** With a poller that does report a failure, the sector loop returns at once
    with ERROR_FLASH_SECTOR_NOT_ERASED and the re-lock is not reached. *)
Lemma erase_failure_branch_skips_relock :
  erase_with failing_poller (bank32k never_busy) 2 3 world0
  = Some (ERROR_FLASH_SECTOR_NOT_ERASED,
          {| now := 0; nreads := 0;
             trace := sector_prologue 0 2 ++ [EvPoll 50] |}).
Proof. reflexivity. Qed.

(** ** The poller at the deadline *)

(** C1 (the code departs from the claim): the control register reads busy at
    every poll, the 50 ms deadline passes, and the poller still returns
    ERROR_OK. *)
Theorem poll_past_deadline_returns_ok :
  exists w',
    hc32l110_check_flash_completion 100 always_busy 50 world0 = Some (ERROR_OK, w') /\
    now w' = now world0 + 50 /\
    length (trace w') = 101%nat /\
    forallb (fun e => match e with
                      | EvRead _ v => negb (Z.land v HC32L110_FLASH_CR_BUSY =? 0)
                      | _ => true
                      end) (trace w') = true.
Proof.
  eexists. split; [vm_compute; reflexivity|].
  split; [reflexivity|]. split; reflexivity.
Qed.

(** ** The lock register during a sector erase *)

(** C8 (the code departs from the claim): in the sector loop the second write
    to the lock register follows the first one directly, with no handshake in
    between. *)
Theorem sector_erase_lock_write_without_bypass :
  exists w',
    hc32l110_erase 100 (bank32k never_busy) 0 1 world0 = Some (ERROR_OK, w') /\
    ~ lock_writes_bypassed (trace w').
Proof.
  eexists. split; [vm_compute; reflexivity|].
  intros H.
  destruct (H ([EvWrite HC32L110_FLASH_BYPASS 0x5a5a; EvWrite HC32L110_FLASH_BYPASS 0xa5a5;
                EvWrite HC32L110_FLASH_CR FLASH_OP_ERASE_SECTOR;
                EvWrite HC32L110_FLASH_BYPASS 0x5a5a; EvWrite HC32L110_FLASH_BYPASS 0xa5a5;
                EvWrite HC32L110_FLASH_BYPASS 0x5a5a; EvWrite HC32L110_FLASH_BYPASS 0xa5a5]
               ++ [EvWrite HC32L110_FLASH_SLOCK 1])
              1
              ([EvWrite 0 0; EvPoll 50; EvRead HC32L110_FLASH_CR 0] ++ relock_sequence)
              eq_refl) as (pre' & Hpre).
  unfold bypass_handshake in Hpre.
  change (pre' ++ [EvWrite HC32L110_FLASH_BYPASS 0x5a5a; EvWrite HC32L110_FLASH_BYPASS 0xa5a5])
    with (pre' ++ [EvWrite HC32L110_FLASH_BYPASS 0x5a5a] ++ [EvWrite HC32L110_FLASH_BYPASS 0xa5a5])
    in Hpre.
  rewrite app_assoc in Hpre.
  apply app_inj_tail in Hpre. destruct Hpre as [_ Hlast]. discriminate Hlast.
Qed.

(** The other writes to the lock register do follow the handshake: in
    [hc32l110_sunlock] and [hc32l110_slock_all] the three bus accesses are the
    two handshake words and then the lock write. *)
Lemma sunlock_and_slock_all_bypassed tgt s e w :
  trace (hc32l110_sunlock tgt s e w)
  = trace w ++ bypass_handshake
      ++ [EvWrite HC32L110_FLASH_SLOCK (wrap32 (sunlock_mask s e))] /\
  trace (hc32l110_slock_all tgt w)
  = trace w ++ bypass_handshake ++ [EvWrite HC32L110_FLASH_SLOCK 0].
Proof. split; [apply trace_sunlock | apply trace_slock_all]. Qed.

(** For each of the 64 sectors of a 32 KiB bank, the mask the unlock call
    writes is the single bit of the region holding the sector, [x / 8]; the
    value written next is [1 << (x / 4)], which agrees only for [x < 4]. *)
Lemma sector_unlock_masks :
  forallb (fun x =>
             let adr := wrap32 (x * FLASH_SECTOR_SIZE) in
             (wrap32 (sunlock_mask (to_int32 adr) (to_int32 (adr + FLASH_SECTOR_SIZE)))
                =? Z.shiftl 1 (x * FLASH_SECTOR_SIZE / SPROT_SEC_SIZE))
             && Bool.eqb (Z.shiftl 1 (x / 4) =? Z.shiftl 1 (x * FLASH_SECTOR_SIZE / SPROT_SEC_SIZE))
                         (x <? 4))
          (map Z.of_nat (seq 0 64)) = true.
Proof. vm_compute. reflexivity. Qed.

(** ** The region-lock mask *)

Lemma to_int32_bits z m : 0 <= m < 32 -> Z.testbit (to_int32 z) m = Z.testbit z m.
Proof.
  intros Hm.
  rewrite <- (Z.mod_pow2_bits_low (to_int32 z) 32 m) by lia.
  rewrite <- (Z.mod_pow2_bits_low z 32 m) by lia.
  f_equal. unfold to_int32.
  rewrite Zminus_mod_idemp_l.
  replace (z + 2 ^ 31 - 2 ^ 31) with z by lia. reflexivity.
Qed.

Lemma wrap32_bits z m : 0 <= m < 32 -> Z.testbit (wrap32 z) m = Z.testbit z m.
Proof. intros Hm. unfold wrap32. apply Z.mod_pow2_bits_low. lia. Qed.

Lemma sunlock_bits_spec n : forall i b m,
  0 <= i -> 0 <= m < 32 ->
  Z.testbit (sunlock_bits n i b) m
  = Z.testbit b m || ((i <=? m) && (m <? i + Z.of_nat n)).
Proof.
  induction n as [|n IH]; intros i b m Hi Hm.
  - cbn [sunlock_bits].
    destruct (Z.leb_spec i m), (Z.ltb_spec m (i + Z.of_nat 0));
      cbn [andb]; rewrite ?orb_false_r; try reflexivity; lia.
  - cbn [sunlock_bits]. rewrite IH by lia.
    rewrite Z.lor_spec, to_int32_bits by lia.
    rewrite Z.shiftl_1_l, Z.pow2_bits_eqb by lia.
    destruct (Z.eqb_spec i m), (Z.leb_spec i m), (Z.leb_spec (i + 1) m),
             (Z.ltb_spec m (i + 1 + Z.of_nat n)), (Z.ltb_spec m (i + Z.of_nat (S n)));
      cbn [andb orb]; rewrite ?orb_false_r, ?orb_true_r; try reflexivity; lia.
Qed.

Lemma sunlock_mask_bits start_adr end_adr i :
  0 <= start_adr -> 0 <= end_adr -> end_adr + SPROT_SEC_SIZE <= INT_MAX ->
  0 <= i < 32 ->
  Z.testbit (wrap32 (sunlock_mask start_adr end_adr)) i
  = (start_adr / SPROT_SEC_SIZE <=? i)
    && (i <? (end_adr + SPROT_SEC_SIZE - 1) / SPROT_SEC_SIZE).
Proof.
  unfold SPROT_SEC_SIZE, INT_MAX. intros Hs He Hmax Hi.
  rewrite wrap32_bits by assumption.
  unfold sunlock_mask, SPROT_SEC_SIZE.
  rewrite (to_int32_small (end_adr + 4096)) by (unfold INT_MAX; lia).
  rewrite (to_int32_small (end_adr + 4096 - 1)) by (unfold INT_MAX; lia).
  rewrite !Z.quot_div_nonneg by lia.
  assert (Hq1 : 0 <= start_adr / 4096) by (apply Z.div_pos; lia).
  rewrite sunlock_bits_spec by lia.
  rewrite Z.bits_0. cbn [orb].
  destruct (Z.leb_spec (start_adr / 4096) i); cbn [andb]; [|reflexivity].
  destruct (Z.ltb_spec i ((end_adr + 4096 - 1) / 4096)),
           (Z.ltb_spec i (start_adr / 4096 +
                          Z.of_nat (Z.to_nat ((end_adr + 4096 - 1) / 4096 - start_adr / 4096))));
    try reflexivity; lia.
Qed.

(** C6, as amended: for a non-empty span [start_addr, end_addr) of
    non-negative addresses that lies within the 32 lock regions of the mask
    ([end_addr <= 32 * 4096]), bit [i] of the mask that the unlock routine
    writes to the lock register is set exactly when the span meets the 4 KiB
    region [i * 4096, (i + 1) * 4096), for every region index [i] of the
    32-bit mask. *)
Theorem sunlock_mask_regions tgt start_addr end_addr w i :
  0 <= start_addr < end_addr -> end_addr <= 32 * SPROT_SEC_SIZE ->
  0 <= i < 32 ->
  exists mask,
    trace (hc32l110_sunlock tgt start_addr end_addr w)
    = trace w ++ bypass_handshake ++ [EvWrite HC32L110_FLASH_SLOCK mask] /\
    mask = wrap32 (sunlock_mask start_addr end_addr) /\
    (Z.testbit mask i = true <-> span_meets_region start_addr end_addr i).
Proof.
  intros Hspan Hmax Hi.
  exists (wrap32 (sunlock_mask start_addr end_addr)).
  split; [apply trace_sunlock|]. split; [reflexivity|].
  rewrite sunlock_mask_bits by (unfold SPROT_SEC_SIZE, INT_MAX in *; lia).
  unfold span_meets_region, SPROT_SEC_SIZE, INT_MAX in *.
  rewrite andb_true_iff, Z.leb_le, Z.ltb_lt.
  pose proof (Z.div_mod start_addr 4096 ltac:(lia)) as Hds.
  pose proof (Z.mod_pos_bound start_addr 4096 ltac:(lia)) as Hbs.
  pose proof (Z.div_mod (end_addr + 4096 - 1) 4096 ltac:(lia)) as Hde.
  pose proof (Z.mod_pos_bound (end_addr + 4096 - 1) 4096 ltac:(lia)) as Hbe.
  split.
  - intros [H1 H2]. exists (Z.max start_addr (i * 4096)). lia.
  - intros (a & Ha1 & Ha2). lia.
Qed.

Lemma sunlock_mask_regions_witness :
  exists mask,
    trace (hc32l110_sunlock never_busy 0 (32 * 1024) world0)
    = trace world0 ++ bypass_handshake ++ [EvWrite HC32L110_FLASH_SLOCK mask] /\
    mask = wrap32 (sunlock_mask 0 (32 * 1024)) /\
    (Z.testbit mask 7 = true <-> span_meets_region 0 (32 * 1024) 7).
Proof.
  apply (sunlock_mask_regions never_busy 0 (32 * 1024) world0 7).
  - lia.
  - unfold SPROT_SEC_SIZE; lia.
  - lia.
Defined.

(** C6 as stated fails on an empty span that does not start on a region
    boundary: for [4, 4), which the write entry point passes for offset 4 and
    count 0, bit 0 of the mask is set although the span meets no region. *)
Lemma sunlock_mask_empty_span :
  0 <= 4 <= 4 /\ 0 <= 0 < 32 /\
  Z.testbit (wrap32 (sunlock_mask 4 4)) 0 = true /\
  ~ span_meets_region 4 4 0 /\
  ~ (Z.testbit (wrap32 (sunlock_mask 4 4)) 0 = true <-> span_meets_region 4 4 0).
Proof.
  assert (Hempty : ~ span_meets_region 4 4 0) by (intros (a & Ha & _); lia).
  repeat split; try lia; try exact Hempty.
  intros [Hset _]. apply Hempty, Hset. reflexivity.
Qed.

(** ** The geometry prober *)

Lemma fill_sectors_length n : forall offset, length (fill_sectors n offset) = n.
Proof.
  induction n as [|n IH]; intros offset; cbn [fill_sectors length]; [reflexivity|].
  rewrite IH. reflexivity.
Qed.

Lemma fill_sectors_nth n : forall offset i d,
  0 <= offset -> offset + FLASH_SECTOR_SIZE * Z.of_nat n <= UINT_MAX ->
  (i < n)%nat ->
  nth i (fill_sectors n offset) d
  = {| sec_offset := offset + FLASH_SECTOR_SIZE * Z.of_nat i;
       sec_size := FLASH_SECTOR_SIZE; is_erased := -1; is_protected := 0 |}.
Proof.
  unfold FLASH_SECTOR_SIZE, UINT_MAX.
  induction n as [|n IH]; intros offset i d Ho Hmax Hi; [lia|].
  cbn [fill_sectors sec_size].
  destruct i as [|i]; cbn [nth].
  - f_equal. lia.
  - unfold FLASH_SECTOR_SIZE.
    rewrite wrap32_small by (unfold UINT_MAX; lia).
    rewrite IH by lia. f_equal. lia.
Qed.

(** C7: probe fails exactly when the size read from the device is below 4096
    or above 32768, and then leaves the bank as it was; otherwise it returns
    ERROR_OK, stores the size, and builds size / 512 sectors, sector [i] at
    offset [512 * i], of size 512, with erased state unknown (-1) and not
    protected (0). The sizes 0, 4095 and 32769 are rejected and 4096, 16384
    and 32768 accepted. *)
Theorem probe_size_range bank w :
  let flash_size := wrap32 (read_reply (bank_target bank) HC32L110_FLASH_SIZE (nreads w)) in
  let '(rc, bank', w') := hc32l110_probe bank w in
  trace w' = trace w ++ [EvRead HC32L110_FLASH_SIZE flash_size] /\
  (rc <> ERROR_OK <-> flash_size < 4096 \/ 32768 < flash_size) /\
  (rc <> ERROR_OK -> rc = ERROR_FLASH_OPERATION_FAILED /\ bank' = bank) /\
  (rc = ERROR_OK ->
     size bank' = flash_size /\
     num_sectors bank' = flash_size / 512 /\
     length (sectors bank') = Z.to_nat (flash_size / 512) /\
     forall i d, (i < Z.to_nat (flash_size / 512))%nat ->
       nth i (sectors bank') d
       = {| sec_offset := 512 * Z.of_nat i; sec_size := 512;
            is_erased := -1; is_protected := 0 |}) /\
  map (fun r => fst (fst (hc32l110_probe (bank32k (reporting r)) world0)))
      [0; 4095; 32769; 4096; 16384; 32768]
  = [ERROR_FLASH_OPERATION_FAILED; ERROR_FLASH_OPERATION_FAILED;
     ERROR_FLASH_OPERATION_FAILED; ERROR_OK; ERROR_OK; ERROR_OK].
Proof.
  intros flash_size. unfold hc32l110_probe. cbn [target_read_u32].
  fold flash_size.
  destruct (Z.gtb_spec flash_size 32768) as [Hgt | Hle]; cbn [orb].
  - split; [reflexivity|]. split; [split; [lia | discriminate]|].
    split; [auto|]. split; [discriminate | reflexivity].
  - destruct (Z.ltb_spec flash_size 4096) as [Hlt | Hge].
    + split; [reflexivity|]. split; [split; [lia | discriminate]|].
      split; [auto|]. split; [discriminate | reflexivity].
    + split; [reflexivity|].
      split; [split; [intros H; exfalso; apply H; reflexivity | lia]|].
      split; [intros H; exfalso; apply H; reflexivity|].
      split; [|reflexivity].
      intros _. cbn [size num_sectors sectors]. unfold FLASH_SECTOR_SIZE.
      split; [reflexivity|]. split; [reflexivity|].
      split; [apply fill_sectors_length|].
      intros i d Hi.
      assert (Hn : 0 <= flash_size / 512 <= 64).
      { split; [apply Z.div_pos; lia|].
        apply Z.div_le_upper_bound; lia. }
      rewrite fill_sectors_nth; [reflexivity | lia | | exact Hi].
      unfold FLASH_SECTOR_SIZE, UINT_MAX. rewrite Z2Nat.id by lia. lia.
Qed.

(** * Further properties of the driver *)

(** ** The poller, pass by pass *)

Lemma slept_app (a b : list event) : slept (a ++ b) = slept a + slept b.
Proof.
  induction a as [|e a IH]; [reflexivity|].
  destruct e; simpl; rewrite IH; lia.
Qed.

Lemma poll_loop_bounds fuel : forall tgt endtime w w',
  poll_loop fuel tgt endtime w = Some w' ->
  exists evs,
    trace w' = trace w ++ evs /\ quiet evs /\
    slept evs = now w' - now w /\
    0 <= now w' - now w <= Z.max 1 (endtime - now w) /\
    (nreads w < nreads w')%nat /\
    Z.of_nat (nreads w' - nreads w) <= now w' - now w + 1.
Proof.
  induction fuel as [|fuel IH]; intros tgt endtime w w' H; [discriminate|].
  cbn [poll_loop target_read_u32] in H.
  destruct (Z.land _ HC32L110_FLASH_CR_BUSY =? 0).
  - injection H as <-. eexists. split; [reflexivity|].
    split; [split; reflexivity|]. cbn [now nreads slept]. repeat split; lia.
  - set (w2 := alive_sleep 1 _) in H.
    assert (Hnow : now w2 = now w + 1) by reflexivity.
    assert (Hn : nreads w2 = S (nreads w)) by reflexivity.
    assert (Htr : trace w2 = trace w ++ [EvRead HC32L110_FLASH_CR (cr_reading tgt (nreads w));
                                          EvSleep 1]).
    { subst w2. simpl. rewrite <- app_assoc. reflexivity. }
    clearbody w2.
    unfold timeval_ms in H. destruct (Z.geb_spec (now w2) endtime) as [Hge | Hlt].
    + injection H as <-. eexists. split; [exact Htr|].
      split; [split; reflexivity|]. simpl slept. rewrite Hnow, Hn. repeat split; lia.
    + apply IH in H. destruct H as (evs & Htr' & Hq & Hs & Ht & Hr & Hr').
      exists ([EvRead HC32L110_FLASH_CR (cr_reading tgt (nreads w)); EvSleep 1] ++ evs).
      split; [rewrite Htr', Htr, <- app_assoc; reflexivity|].
      split; [apply quiet_app; [split; reflexivity | exact Hq]|].
      rewrite slept_app, Hs. simpl slept. repeat split; lia.
Qed.

(** X1: whatever the device answers, a poll that returns has written nothing
    to the bus, has read the control register at least once, and has slept
    between 0 and max(1, timeout_ms) ms in all, one ms after each read but
    possibly the last. *)
Theorem poller_effort fuel tgt timeout_ms w rc w' :
  hc32l110_check_flash_completion fuel tgt timeout_ms w = Some (rc, w') ->
  exists evs,
    trace w' = trace w ++ EvPoll timeout_ms :: evs /\
    writes evs = [] /\ polls evs = [] /\
    slept evs = now w' - now w /\
    0 <= now w' - now w <= Z.max 1 timeout_ms /\
    (nreads w < nreads w')%nat /\
    Z.of_nat (nreads w' - nreads w) <= now w' - now w + 1.
Proof.
  unfold hc32l110_check_flash_completion. intros H.
  destruct (poll_loop _ _ _ _) as [w1|] eqn:Hloop; [|discriminate].
  injection H as _ <-.
  apply poll_loop_bounds in Hloop.
  destruct Hloop as (evs & Htr & [Hw Hp] & Hs & Ht & Hr & Hr').
  unfold timeval_ms in Ht. cbn [emit now nreads trace] in *.
  exists evs. split; [rewrite Htr, <- app_assoc; reflexivity|].
  repeat split; try assumption; lia.
Qed.

Lemma poller_effort_witness :
  exists evs,
    [EvPoll 5; EvRead HC32L110_FLASH_CR 0] = trace world0 ++ EvPoll 5 :: evs /\
    writes evs = [] /\ polls evs = [] /\
    slept evs = 0 - now world0 /\
    0 <= 0 - now world0 <= Z.max 1 5 /\
    (nreads world0 < 1)%nat /\
    Z.of_nat (1 - nreads world0) <= 0 - now world0 + 1.
Proof.
  apply (poller_effort 10 never_busy 5 world0 ERROR_OK
           {| now := 0; nreads := 1; trace := [EvPoll 5; EvRead HC32L110_FLASH_CR 0] |}).
  reflexivity.
Defined.

Lemma poll_loop_shape fuel : forall tgt endtime w w',
  poll_loop fuel tgt endtime w = Some w' ->
  exists k tail,
    trace w' = trace w ++ busy_rounds tgt (nreads w) k ++ tail /\
    (forall j, (j < k)%nat -> cr_busy (cr_reading tgt (nreads w + j)) = true) /\
    ((tail = [EvRead HC32L110_FLASH_CR (cr_reading tgt (nreads w + k))] /\
      cr_busy (cr_reading tgt (nreads w + k)) = false) \/
     (tail = [] /\ (1 <= k)%nat)) /\
    Z.of_nat k <= Z.max 1 (endtime - now w).
Proof.
  induction fuel as [|fuel IH]; intros tgt endtime w w' H; [discriminate|].
  cbn [poll_loop target_read_u32] in H.
  fold (cr_reading tgt (nreads w)) in H.
  destruct (Z.land (cr_reading tgt (nreads w)) HC32L110_FLASH_CR_BUSY =? 0) eqn:Hbit.
  - injection H as <-.
    exists 0%nat, [EvRead HC32L110_FLASH_CR (cr_reading tgt (nreads w))].
    rewrite Nat.add_0_r. cbn [busy_rounds app trace].
    split; [reflexivity|]. split; [intros j Hj; lia|].
    split; [|lia]. left. split; [reflexivity|].
    unfold cr_busy. rewrite Hbit. reflexivity.
  - assert (Hbusy : cr_busy (cr_reading tgt (nreads w)) = true)
      by (unfold cr_busy; rewrite Hbit; reflexivity).
    set (w2 := alive_sleep 1 _) in H.
    assert (Hnow : now w2 = now w + 1) by reflexivity.
    assert (Hn : nreads w2 = S (nreads w)) by reflexivity.
    assert (Htr : trace w2 = trace w ++ [EvRead HC32L110_FLASH_CR (cr_reading tgt (nreads w));
                                          EvSleep 1]).
    { subst w2. simpl. rewrite <- app_assoc. reflexivity. }
    clearbody w2.
    unfold timeval_ms in H. destruct (Z.geb_spec (now w2) endtime) as [Hge | Hlt].
    + injection H as <-. exists 1%nat, [].
      cbn [busy_rounds]. rewrite app_nil_r.
      split; [exact Htr|]. split.
      * intros j Hj. assert (j = 0%nat) by lia. subst j.
        rewrite Nat.add_0_r. exact Hbusy.
      * split; [right; split; [reflexivity | lia] | lia].
    + apply IH in H. destruct H as (k & tail & Htr' & Hall & Htail & Hk).
      exists (S k), tail. split; [|split; [|split]].
      * rewrite Htr', Htr, Hn, <- !app_assoc. reflexivity.
      * intros j Hj. destruct j as [|j]; [rewrite Nat.add_0_r; exact Hbusy|].
        replace (nreads w + S j)%nat with (nreads w2 + j)%nat by lia.
        apply Hall. lia.
      * replace (nreads w + S k)%nat with (nreads w2 + k)%nat by lia.
        destruct Htail as [Hc | [Ht Hk1]]; [left; exact Hc | right; split; [exact Ht | lia]].
      * lia.
Qed.

(** X2: a poll that returns is made of [k] passes, each a read of the
    control register that finds the busy bit set followed by a sleep of 1 ms,
    and then ends in one of two ways: with one more read of the control
    register that finds the bit clear, after which nothing follows, or, after
    at least one pass, with the sleep of the last pass. [k] is at most
    max(1, timeout_ms), and the result is ERROR_OK in both cases. *)
Theorem poller_passes fuel tgt timeout_ms w rc w' :
  hc32l110_check_flash_completion fuel tgt timeout_ms w = Some (rc, w') ->
  rc = ERROR_OK /\
  exists k tail,
    trace w' = trace w ++ EvPoll timeout_ms :: busy_rounds tgt (nreads w) k ++ tail /\
    (forall j, (j < k)%nat -> cr_busy (cr_reading tgt (nreads w + j)) = true) /\
    ((tail = [EvRead HC32L110_FLASH_CR (cr_reading tgt (nreads w + k))] /\
      cr_busy (cr_reading tgt (nreads w + k)) = false) \/
     (tail = [] /\ (1 <= k)%nat)) /\
    Z.of_nat k <= Z.max 1 timeout_ms.
Proof.
  unfold hc32l110_check_flash_completion. intros H.
  destruct (poll_loop _ _ _ _) as [w1|] eqn:Hloop; [|discriminate].
  injection H as <- <-. split; [reflexivity|].
  apply poll_loop_shape in Hloop.
  destruct Hloop as (k & tail & Htr & Hall & Htail & Hk).
  unfold timeval_ms in Hk. cbn [emit now nreads trace] in *.
  exists k, tail. split; [rewrite Htr, <- app_assoc; reflexivity|].
  split; [exact Hall|]. split; [exact Htail | lia].
Qed.

Lemma poller_passes_witness :
  ERROR_OK = ERROR_OK /\
  exists k tail,
    [EvPoll 0; EvRead HC32L110_FLASH_CR 16; EvSleep 1]
    = trace world0 ++ EvPoll 0 :: busy_rounds always_busy (nreads world0) k ++ tail /\
    (forall j, (j < k)%nat ->
               cr_busy (cr_reading always_busy (nreads world0 + j)) = true) /\
    ((tail = [EvRead HC32L110_FLASH_CR (cr_reading always_busy (nreads world0 + k))] /\
      cr_busy (cr_reading always_busy (nreads world0 + k)) = false) \/
     (tail = [] /\ (1 <= k)%nat)) /\
    Z.of_nat k <= Z.max 1 0.
Proof.
  apply (poller_passes 1 always_busy 0 world0 ERROR_OK
           {| now := 1; nreads := 1;
              trace := [EvPoll 0; EvRead HC32L110_FLASH_CR 16; EvSleep 1] |}).
  reflexivity.
Defined.

(** ** Rounds of bus writes and polls *)

Lemma check_poll_part fuel tgt timeout_ms w rc w' :
  hc32l110_check_flash_completion fuel tgt timeout_ms w = Some (rc, w') ->
  rc = ERROR_OK /\
  exists evs, trace w' = trace w ++ EvPoll timeout_ms :: evs /\ poll_part timeout_ms evs.
Proof.
  unfold hc32l110_check_flash_completion. intros H.
  destruct (poll_loop _ _ _ _) as [w1|] eqn:Hloop; [|discriminate].
  injection H as <- <-. split; [reflexivity|].
  apply poll_loop_bounds in Hloop.
  destruct Hloop as (evs & Htr & Hq & Hs & Ht & _).
  unfold timeval_ms in Ht. cbn [emit now nreads trace] in *.
  exists evs. split; [rewrite Htr, <- app_assoc; reflexivity|].
  split; [exact Hq | lia].
Qed.

Lemma rounds_slept t pros : forall tr,
  (forall p, In p pros -> slept p = 0) ->
  rounds t pros tr ->
  0 <= slept tr <= Z.of_nat (length pros) * Z.max 1 t.
Proof.
  induction pros as [|p pros IH]; intros tr Hp H; cbn [rounds] in H.
  - subst tr. simpl. lia.
  - destruct H as (evs & rest & -> & (_ & Hs) & Hrest).
    specialize (IH rest (fun q Hq => Hp q (or_intror Hq)) Hrest).
    rewrite slept_app, (Hp p (or_introl eq_refl)).
    cbn [slept]. rewrite slept_app.
    cbn [length]. rewrite Nat2Z.inj_succ. lia.
Qed.

Lemma rounds_writes t pros : forall tr,
  rounds t pros tr -> writes tr = concat (map writes pros).
Proof.
  induction pros as [|p pros IH]; intros tr H; cbn [rounds] in H.
  - subst tr. reflexivity.
  - destruct H as (evs & rest & -> & ((Hw & _) & _) & Hrest).
    rewrite writes_app. cbn [writes map concat].
    rewrite writes_app, Hw, (IH rest Hrest). reflexivity.
Qed.

Lemma rounds_polls t pros : forall tr,
  (forall p, In p pros -> polls p = []) ->
  rounds t pros tr -> polls tr = repeat t (length pros).
Proof.
  induction pros as [|p pros IH]; intros tr Hp H; cbn [rounds] in H.
  - subst tr. reflexivity.
  - destruct H as (evs & rest & -> & ((_ & Hq) & _) & Hrest).
    rewrite polls_app, (Hp p (or_introl eq_refl)). cbn [polls app].
    rewrite polls_app, Hq, (IH rest (fun q Hq' => Hp q (or_intror Hq')) Hrest).
    reflexivity.
Qed.

(** ** The erase engine, round by round *)

Lemma erase_sectors_rounds fuel n : forall tgt bank_base x w rc w',
  erase_sectors (hc32l110_check_flash_completion fuel) n tgt bank_base x w
    = Some (rc, w') ->
  exists evs,
    trace w' = trace w ++ evs /\
    rounds 50 (map (fun k => sector_prologue bank_base (x + Z.of_nat k)) (seq 0 n)) evs.
Proof.
  induction n as [|n IH]; intros tgt bank_base x w rc w' H; cbn [erase_sectors] in H.
  - injection H as _ <-. exists []. rewrite app_nil_r. split; reflexivity.
  - unfold erase_sector in H.
    match type of H with
    | context [hc32l110_check_flash_completion fuel tgt 50 ?w1] =>
        assert (Hw1 : trace w1 = trace w ++ sector_prologue bank_base x);
        [ | destruct (hc32l110_check_flash_completion fuel tgt 50 w1)
              as [[rc1 w2]|] eqn:Hpoll; [|discriminate] ]
    end.
    { rewrite !trace_write, trace_sunlock, trace_bypass, trace_write, trace_bypass.
      unfold sector_prologue. rewrite <- !app_assoc. reflexivity. }
    apply check_poll_part in Hpoll. destruct Hpoll as (-> & evs & Htr & Hpart).
    apply IH in H. destruct H as (rest & Htr' & Hrounds).
    exists (sector_prologue bank_base x ++ EvPoll 50 :: evs ++ rest). split.
    + rewrite Htr', Htr, Hw1, <- !app_assoc. reflexivity.
    + cbn [seq map rounds]. exists evs, rest.
      split; [rewrite Z.add_0_r; reflexivity|]. split; [exact Hpart|].
      rewrite <- seq_shift, map_map.
      erewrite map_ext; [exact Hrounds|].
      intros k. cbn beta. rewrite Nat2Z.inj_succ. f_equal. lia.
Qed.

Lemma sector_erase_trace fuel bank first last w rc w' :
  is_mass_erase first last (num_sectors bank) = false ->
  hc32l110_erase fuel bank first last w = Some (rc, w') ->
  exists evs,
    trace w' = trace w ++ evs ++ relock_sequence /\
    rounds 50 (map (sector_prologue (base bank)) (sector_range first last)) evs /\
    writes evs = concat (map (fun x => writes (sector_prologue (base bank) x))
                             (sector_range first last)).
Proof.
  intros Hsel H.
  unfold hc32l110_erase, erase_with in H. rewrite Hsel in H.
  unfold sector_erase in H.
  destruct (erase_sectors _ _ _ _ _ _) as [[rc1 w1]|] eqn:Hloop; [|discriminate].
  pose proof (erase_sectors_spec fuel (Z.to_nat (last - first)) (bank_target bank)
                (base bank) first w) as Hs.
  rewrite Hloop in Hs. destruct Hs as (-> & _).
  injection H as _ <-.
  apply erase_sectors_rounds in Hloop. destruct Hloop as (evs & Htr & Hrounds).
  assert (Hr : rounds 50 (map (sector_prologue (base bank)) (sector_range first last)) evs).
  { unfold sector_range. rewrite map_map. exact Hrounds. }
  exists evs. split; [rewrite trace_slock_all, Htr, <- app_assoc; reflexivity|].
  split; [exact Hr|].
  rewrite (rounds_writes _ _ _ Hr), map_map. reflexivity.
Qed.

(** X4: on a bank based at 0, a per-sector erase of sectors below 128 that
    returns has done, for each sector [x] of [first, last) in ascending
    order, the bus writes of one pass (handshake, CR <- ERASE_SECTOR,
    handshake, the unlock call, the second lock write, the trigger write of 0
    at [512 * x]) followed by one poll with 50 ms, and after the last sector
    the re-lock, and nothing else. *)
Theorem sector_erase_rounds fuel bank first last w rc w' :
  base bank = 0 -> 0 <= first -> last <= 128 ->
  is_mass_erase first last (num_sectors bank) = false ->
  hc32l110_erase fuel bank first last w = Some (rc, w') ->
  exists evs,
    trace w' = trace w ++ evs ++ relock_sequence /\
    rounds 50 (map (sector_prologue (base bank)) (sector_range first last)) evs /\
    writes evs = concat (map (fun x => writes (sector_prologue (base bank) x))
                             (sector_range first last)).
Proof. intros _ _ _. apply sector_erase_trace. Qed.

Lemma sector_erase_rounds_witness :
  exists evs,
    sector_prologue 0 2 ++ [EvPoll 50; EvRead HC32L110_FLASH_CR 0] ++ relock_sequence
    = trace world0 ++ evs ++ relock_sequence /\
    rounds 50 (map (sector_prologue (base (bank32k never_busy))) (sector_range 2 3)) evs /\
    writes evs = concat (map (fun x => writes (sector_prologue (base (bank32k never_busy)) x))
                             (sector_range 2 3)).
Proof.
  apply (sector_erase_rounds 100 (bank32k never_busy) 2 3 world0 ERROR_OK
           {| now := 0; nreads := 1;
              trace := sector_prologue 0 2 ++ [EvPoll 50; EvRead HC32L110_FLASH_CR 0]
                         ++ relock_sequence |}).
  - reflexivity.
  - lia.
  - lia.
  - reflexivity.
  - reflexivity.
Defined.

(** X5: an erase request for an empty range that does not start at sector 0
    ([0 < first], [last <= first]) selects no mode, writes no trigger and
    does not poll: its only bus accesses are the re-lock. *)
Theorem erase_empty_range fuel bank first last w :
  0 < first -> 0 <= last <= first ->
  exists w',
    hc32l110_erase fuel bank first last w = Some (ERROR_OK, w') /\
    trace w' = trace w ++ relock_sequence /\
    now w' = now w /\ nreads w' = nreads w.
Proof.
  intros Hfirst Hlast.
  assert (Hsel : is_mass_erase first last (num_sectors bank) = false).
  { destruct (is_mass_erase first last (num_sectors bank)) eqn:E; [|reflexivity].
    apply is_mass_erase_iff in E. lia. }
  unfold hc32l110_erase, erase_with. rewrite Hsel. unfold sector_erase.
  replace (Z.to_nat (last - first)) with 0%nat by lia.
  cbn [erase_sectors]. eexists. split; [reflexivity|].
  split; [apply trace_slock_all|]. split; reflexivity.
Qed.

Lemma erase_empty_range_witness :
  exists w',
    hc32l110_erase 0 (bank32k always_busy) 3 3 world0 = Some (ERROR_OK, w') /\
    trace w' = trace world0 ++ relock_sequence /\
    now w' = now world0 /\ nreads w' = nreads world0.
Proof.
  apply (erase_empty_range 0 (bank32k always_busy) 3 3 world0); lia.
Defined.

Lemma slept_sector_prologue bank_base x : slept (sector_prologue bank_base x) = 0.
Proof. reflexivity. Qed.

(** X6: an erase that returns has slept at most 3500 ms on the mass-erase
    branch and at most 50 ms per sector of [first, last) on the per-sector
    branch, whatever the device answers. *)
Theorem erase_sleep_budget fuel bank first last w rc w' :
  hc32l110_erase fuel bank first last w = Some (rc, w') ->
  exists evs,
    trace w' = trace w ++ evs /\
    0 <= slept evs <=
      (if is_mass_erase first last (num_sectors bank) then 3500
       else 50 * Z.of_nat (Z.to_nat (last - first))).
Proof.
  intros H. unfold hc32l110_erase, erase_with in H.
  destruct (is_mass_erase first last (num_sectors bank)).
  - unfold mass_erase in H.
    match type of H with
    | context [hc32l110_check_flash_completion fuel ?tgt 3500 ?w1] =>
        assert (Hw1 : trace w1 = trace w ++ mass_prologue);
        [ | destruct (hc32l110_check_flash_completion fuel tgt 3500 w1)
              as [[rc1 w2]|] eqn:Hpoll; [|discriminate] ]
    end.
    { rewrite trace_write, trace_sunlock, trace_write, trace_bypass.
      rewrite <- !app_assoc. reflexivity. }
    apply check_poll_part in Hpoll. destruct Hpoll as (-> & evs & Htr & _ & Hs).
    injection H as _ <-.
    exists (mass_prologue ++ (EvPoll 3500 :: evs) ++ relock_sequence). split.
    + rewrite trace_slock_all, Htr, Hw1, <- !app_assoc. reflexivity.
    + rewrite !slept_app. cbn [slept].
      change (slept mass_prologue) with 0. change (slept relock_sequence) with 0. lia.
  - unfold sector_erase in H.
    destruct (erase_sectors _ _ _ _ _ _) as [[rc1 w1]|] eqn:Hloop; [|discriminate].
    pose proof (erase_sectors_spec fuel (Z.to_nat (last - first)) (bank_target bank)
                  (base bank) first w) as Hspec.
    rewrite Hloop in Hspec. destruct Hspec as (-> & _).
    injection H as _ <-.
    apply erase_sectors_rounds in Hloop. destruct Hloop as (evs & Htr & Hrounds).
    apply rounds_slept in Hrounds.
    + rewrite length_map, length_seq in Hrounds.
      exists (evs ++ relock_sequence). split.
      * rewrite trace_slock_all, Htr, <- app_assoc. reflexivity.
      * rewrite slept_app. change (slept relock_sequence) with 0. lia.
    + intros p Hp. apply in_map_iff in Hp. destruct Hp as (k & <- & _).
      apply slept_sector_prologue.
Qed.

Lemma erase_sleep_budget_witness :
  exists evs,
    sector_prologue 0 2 ++ [EvPoll 50; EvRead HC32L110_FLASH_CR 0] ++ relock_sequence
    = trace world0 ++ evs /\
    0 <= slept evs <=
      (if is_mass_erase 2 3 (num_sectors (bank32k never_busy)) then 3500
       else 50 * Z.of_nat (Z.to_nat (3 - 2))).
Proof.
  apply (erase_sleep_budget 100 (bank32k never_busy) 2 3 world0 ERROR_OK
           {| now := 0; nreads := 1;
              trace := sector_prologue 0 2 ++ [EvPoll 50; EvRead HC32L110_FLASH_CR 0]
                         ++ relock_sequence |}).
  reflexivity.
Defined.

(** ** The lock register when an operation returns *)

Lemma held_relock pre :
  held HC32L110_FLASH_SLOCK (pre ++ relock_sequence) = Some 0.
Proof. unfold held. rewrite fold_left_app. reflexivity. Qed.

(** X7: whenever erase (on either branch) or write returns, its last three
    bus accesses are the handshake and the write of 0 to the lock register,
    so the last word written to the lock register is 0: all regions are left
    locked. *)
Theorem operations_end_locked fuel bank :
  (forall first last w rc w',
     hc32l110_erase fuel bank first last w = Some (rc, w') ->
     (exists pre, trace w' = pre ++ relock_sequence) /\
     held HC32L110_FLASH_SLOCK (trace w') = Some 0) /\
  (forall buffer offset count w rc w',
     hc32l110_write fuel bank buffer offset count w = Some (rc, w') ->
     (exists pre, trace w' = pre ++ relock_sequence) /\
     held HC32L110_FLASH_SLOCK (trace w') = Some 0).
Proof.
  assert (Hend : forall tr, (exists pre, tr = pre ++ relock_sequence) ->
                 (exists pre, tr = pre ++ relock_sequence) /\
                 held HC32L110_FLASH_SLOCK tr = Some 0).
  { intros tr (pre & ->). split; [eauto | apply held_relock]. }
  split.
  - intros first last w rc w' H. apply Hend.
    pose proof (erase_spec fuel bank first last w) as Hs. rewrite H in Hs.
    destruct Hs as (_ & evs & Hs).
    destruct (is_mass_erase first last (num_sectors bank)).
    + destruct Hs as (Htr & _).
      exists (trace w ++ mass_prologue ++ EvPoll 3500 :: evs).
      rewrite Htr, <- !app_assoc. reflexivity.
    + destruct Hs as (Htr & _). exists (trace w ++ evs).
      rewrite Htr, <- !app_assoc. reflexivity.
  - intros buffer offset count w rc w' H. apply Hend.
    unfold hc32l110_write, write_with, write_single_with in H.
    destruct (write_words _ _ _ _ _ _ _ _) as [[rc1 w1]|] eqn:Hloop; [|discriminate].
    apply write_words_rc in Hloop. subst rc1.
    injection H as _ <-. exists (trace w1). apply trace_slock_all.
Qed.

Lemma operations_end_locked_witness :
  (exists pre,
     sector_prologue 0 2 ++ [EvPoll 50; EvRead HC32L110_FLASH_CR 0] ++ relock_sequence
     = pre ++ relock_sequence) /\
  held HC32L110_FLASH_SLOCK
    (sector_prologue 0 2 ++ [EvPoll 50; EvRead HC32L110_FLASH_CR 0] ++ relock_sequence)
  = Some 0.
Proof.
  apply (proj1 (operations_end_locked 100 (bank32k never_busy)) 2 3 world0 ERROR_OK
           {| now := 0; nreads := 1;
              trace := sector_prologue 0 2 ++ [EvPoll 50; EvRead HC32L110_FLASH_CR 0]
                         ++ relock_sequence |}).
  reflexivity.
Defined.

(** ** The program engine, word by word *)

Lemma write_words_rounds pf tgt buffer offset count :
  0 <= count <= INT_MAX - 3 ->
  forall (k lf : nat) x w rc w',
    -3 <= x -> count <= x + 4 * Z.of_nat k < count + 4 ->
    write_words (hc32l110_check_flash_completion pf) lf tgt buffer offset count x w
      = Some (rc, w') ->
    exists evs,
      trace w' = trace w ++ evs /\
      rounds 1 (map (fun j => [EvWrite (wrap32 (offset + (x + 4 * Z.of_nat j)))
                                 (wrap32 (gather_word buffer count (x + 4 * Z.of_nat j)))])
                    (seq 0 k)) evs.
Proof.
  intros Hc. unfold INT_MAX in Hc.
  assert (Hcnt : to_int32 count = count) by (apply to_int32_small; unfold INT_MAX; lia).
  induction k as [|k IH]; intros lf x w rc w' Hx Hk H;
    (destruct lf as [|lf]; [discriminate|]);
    cbn [write_words] in H; rewrite Hcnt in H.
  - destruct (Z.ltb_spec x count) as [Hlt|_]; [lia|].
    injection H as _ <-. exists []. rewrite app_nil_r. split; reflexivity.
  - destruct (Z.ltb_spec x count) as [_|Hge]; [|lia].
    match type of H with
    | context [hc32l110_check_flash_completion pf tgt 1 ?w1] =>
        destruct (hc32l110_check_flash_completion pf tgt 1 w1)
          as [[rc1 w2]|] eqn:Hpoll; [|discriminate]
    end.
    apply check_poll_part in Hpoll. destruct Hpoll as (-> & evs & Htr & Hpart).
    rewrite (to_int32_small (x + 4)) in H by (unfold INT_MAX; lia).
    apply IH in H; [|lia|lia]. destruct H as (rest & Htr' & Hrounds).
    exists ([EvWrite (wrap32 (offset + x)) (wrap32 (gather_word buffer count x))]
            ++ EvPoll 1 :: evs ++ rest).
    split.
    + rewrite Htr', Htr, trace_write, <- !app_assoc. reflexivity.
    + cbn [seq map rounds]. exists evs, rest.
      split; [rewrite Z.mul_0_r, Z.add_0_r; reflexivity|]. split; [exact Hpart|].
      rewrite <- seq_shift, map_map.
      erewrite map_ext; [exact Hrounds|].
      intros j. cbn beta. rewrite Nat2Z.inj_succ.
      replace (x + 4 * Z.succ (Z.of_nat j)) with (x + 4 + 4 * Z.of_nat j) by lia.
      reflexivity.
Qed.

Lemma write_single_rounds fuel bank buffer offset count w rc w' :
  0 <= offset -> 0 <= count <= INT_MAX - 3 -> offset + count + 3 <= UINT_MAX ->
  hc32l110_write_single fuel bank buffer offset count w = Some (rc, w') ->
  exists body,
    trace w' = trace w ++ write_prologue offset count ++ body ++ relock_sequence /\
    rounds 1 (map (fun p => [EvWrite (fst p) (snd p)])
                  (program_words buffer offset count)) body.
Proof.
  intros Ho Hc Hend H. unfold INT_MAX, UINT_MAX in *.
  pose proof (Z.mod_pos_bound offset 4 ltac:(lia)) as Hr.
  pose proof (Z.div_mod offset 4 ltac:(lia)) as Hdm.
  pose proof (word_count_bounds offset count ltac:(lia)) as Hk.
  unfold hc32l110_write_single, write_single_with in H.
  rewrite neg_start_index in H.
  match type of H with
  | context [write_words _ fuel ?tgt buffer offset count _ ?w1] =>
      assert (Hw1 : trace w1 = trace w ++ write_prologue offset count);
      [ | destruct (write_words (hc32l110_check_flash_completion fuel) fuel tgt
                      buffer offset count (- (offset mod 4)) w1)
            as [[rc1 w2]|] eqn:Hloop; [|discriminate] ]
  end.
  { rewrite trace_sunlock, trace_write, trace_bypass.
    unfold write_prologue. rewrite <- !app_assoc. reflexivity. }
  pose proof (write_words_rc _ _ _ _ _ _ _ _ _ _ Hloop) as ->.
  injection H as _ <-.
  apply (write_words_rounds fuel _ buffer offset count ltac:(unfold INT_MAX; lia)
           (word_count offset count)) in Hloop; [|lia|exact Hk].
  destruct Hloop as (body & Htr & Hrounds).
  exists body. split.
  - rewrite trace_slock_all, Htr, Hw1, <- !app_assoc. reflexivity.
  - unfold program_words. rewrite map_map. cbn [fst snd].
    erewrite map_ext_in; [exact Hrounds|].
    intros j Hj. apply in_seq in Hj. cbn beta.
    rewrite land_NOT3 by (unfold UINT_MAX; lia).
    rewrite (wrap32_small (offset + (- (offset mod 4) + 4 * Z.of_nat j)))
      by (unfold UINT_MAX; lia).
    do 2 f_equal. lia.
Qed.

(** X8: a write call that returns has, between unlock and re-lock, issued
    its words one at a time in ascending address order, each bus write
    followed by exactly one poll with a 1 ms timeout before the next word is
    written. *)
Theorem write_rounds fuel bank buffer offset count w rc w' :
  0 <= offset -> 0 <= count <= INT_MAX - 3 -> offset + count + 3 <= UINT_MAX ->
  hc32l110_write_single fuel bank buffer offset count w = Some (rc, w') ->
  exists body,
    trace w' = trace w ++ write_prologue offset count ++ body ++ relock_sequence /\
    rounds 1 (map (fun p => [EvWrite (fst p) (snd p)])
                  (program_words buffer offset count)) body /\
    polls body = repeat 1 (length (program_words buffer offset count)).
Proof.
  intros Ho Hc Hend H.
  destruct (write_single_rounds fuel bank buffer offset count w rc w' Ho Hc Hend H)
    as (body & Htr & Hrounds).
  exists body. split; [exact Htr|]. split; [exact Hrounds|].
  assert (Hnp : forall p,
             In p (map (fun q : Z * Z => [EvWrite (fst q) (snd q)])
                       (program_words buffer offset count)) ->
             polls p = []).
  { intros p Hp. apply in_map_iff in Hp. destruct Hp as (q & <- & _). reflexivity. }
  pose proof (rounds_polls 1 _ body Hnp Hrounds) as Hpolls.
  rewrite length_map in Hpolls. exact Hpolls.
Qed.

Lemma write_rounds_witness :
  exists body,
    write_prologue 2 3
      ++ [EvWrite 0 0xBBAAFFFF; EvPoll 1; EvRead HC32L110_FLASH_CR 0;
          EvWrite 4 0xFFFFFFCC; EvPoll 1; EvRead HC32L110_FLASH_CR 0]
      ++ relock_sequence
    = trace world0 ++ write_prologue 2 3 ++ body ++ relock_sequence /\
    rounds 1 (map (fun p => [EvWrite (fst p) (snd p)])
                  (program_words [xaa; xbb; xcc] 2 3)) body /\
    polls body = repeat 1 (length (program_words [xaa; xbb; xcc] 2 3)).
Proof.
  apply (write_rounds 100 (bank32k never_busy) [xaa; xbb; xcc] 2 3 world0 ERROR_OK
           {| now := 0; nreads := 2;
              trace := write_prologue 2 3
                ++ [EvWrite 0 0xBBAAFFFF; EvPoll 1; EvRead HC32L110_FLASH_CR 0;
                    EvWrite 4 0xFFFFFFCC; EvPoll 1; EvRead HC32L110_FLASH_CR 0]
                ++ relock_sequence |}).
  - lia.
  - unfold INT_MAX; lia.
  - unfold UINT_MAX; lia.
  - reflexivity.
Defined.

(** X9: a write call that returns has slept at most 1 ms per word written,
    that is at most ceil((count + offset mod 4) / 4) ms in all. *)
Theorem write_sleep_budget fuel bank buffer offset count w rc w' :
  0 <= offset -> 0 <= count <= INT_MAX - 3 -> offset + count + 3 <= UINT_MAX ->
  hc32l110_write_single fuel bank buffer offset count w = Some (rc, w') ->
  exists evs,
    trace w' = trace w ++ evs /\
    0 <= slept evs <= (count + offset mod 4 + 3) / 4.
Proof.
  intros Ho Hc Hend H.
  destruct (write_single_rounds fuel bank buffer offset count w rc w' Ho Hc Hend H)
    as (body & Htr & Hrounds).
  exists (write_prologue offset count ++ body ++ relock_sequence).
  split; [exact Htr|].
  apply rounds_slept in Hrounds.
  - rewrite length_map in Hrounds. unfold program_words in Hrounds.
    rewrite length_map, length_seq in Hrounds. unfold word_count in Hrounds.
    pose proof (Z.mod_pos_bound offset 4 ltac:(lia)) as Hr.
    rewrite Z2Nat.id in Hrounds by (apply Z.div_pos; lia).
    rewrite !slept_app.
    change (slept (write_prologue offset count)) with 0.
    change (slept relock_sequence) with 0. lia.
  - intros p Hp. apply in_map_iff in Hp. destruct Hp as (q & <- & _). reflexivity.
Qed.

Lemma write_sleep_budget_witness :
  exists evs,
    write_prologue 2 3
      ++ [EvWrite 0 0xBBAAFFFF; EvPoll 1; EvRead HC32L110_FLASH_CR 0;
          EvWrite 4 0xFFFFFFCC; EvPoll 1; EvRead HC32L110_FLASH_CR 0]
      ++ relock_sequence
    = trace world0 ++ evs /\
    0 <= slept evs <= (3 + 2 mod 4 + 3) / 4.
Proof.
  apply (write_sleep_budget 100 (bank32k never_busy) [xaa; xbb; xcc] 2 3 world0 ERROR_OK
           {| now := 0; nreads := 2;
              trace := write_prologue 2 3
                ++ [EvWrite 0 0xBBAAFFFF; EvPoll 1; EvRead HC32L110_FLASH_CR 0;
                    EvWrite 4 0xFFFFFFCC; EvPoll 1; EvRead HC32L110_FLASH_CR 0]
                ++ relock_sequence |}).
  - lia.
  - unfold INT_MAX; lia.
  - unfold UINT_MAX; lia.
  - reflexivity.
Defined.

(** ** Edge cases and coverage of the program engine *)

Lemma gather_word_empty buffer x :
  - 3 <= x <= INT_MAX - 3 -> gather_word buffer 0 x = 0xFFFFFFFF.
Proof.
  intros Hx.
  pose proof (gather_word_value buffer 0 x Hx ltac:(unfold INT_MAX; lia)) as Hg.
  cbv zeta in Hg. rewrite Hg.
  assert (Hsel : forall i, (if (i <? 0) && (i >=? 0) then buffer_get buffer i else 0xFF)
                           = 0xFF).
  { intros i. destruct (Z.ltb_spec i 0), (Z.geb_spec i 0); try reflexivity. lia. }
  rewrite !Hsel. reflexivity.
Qed.

(** X10: a write of zero bytes still unlocks and re-locks; at a 4-byte
    aligned offset it programs nothing, and at an unaligned offset it programs
    one word, all 0xFF, at the aligned address below the offset. *)
Theorem write_of_zero_bytes fuel bank buffer offset w :
  0 <= offset -> offset + 3 <= UINT_MAX -> 2 < Z.of_nat fuel ->
  exists w' body,
    hc32l110_write_single fuel bank buffer offset 0 w = Some (ERROR_OK, w') /\
    trace w' = trace w ++ write_prologue offset 0 ++ body ++ relock_sequence /\
    writes body = if offset mod 4 =? 0 then []
                  else [(offset - offset mod 4, 0xFFFFFFFF)].
Proof.
  intros Ho Hend Hfuel.
  destruct (write_single_run fuel bank buffer offset 0 w Ho
              ltac:(unfold INT_MAX; lia) ltac:(lia) ltac:(simpl; lia))
    as (w' & body & Hrun & Htr & Hw & _).
  exists w', body. split; [exact Hrun|]. split; [exact Htr|].
  rewrite Hw. unfold program_words, word_count.
  pose proof (Z.mod_pos_bound offset 4 ltac:(lia)) as Hr.
  destruct (Z.eqb_spec (offset mod 4) 0) as [Hz | Hnz].
  - rewrite Hz. reflexivity.
  - replace (Z.to_nat ((0 + offset mod 4 + 3) / 4)) with 1%nat.
    + cbn [seq map]. rewrite land_NOT3 by lia.
      rewrite gather_word_empty by (unfold INT_MAX; lia).
      f_equal. f_equal. lia.
    + assert (Hcase : offset mod 4 = 1 \/ offset mod 4 = 2 \/ offset mod 4 = 3) by lia.
      destruct Hcase as [-> | [-> | ->]]; reflexivity.
Qed.

Lemma write_of_zero_bytes_witness :
  exists w' body,
    hc32l110_write_single 3 (bank32k never_busy) [] 5 0 world0 = Some (ERROR_OK, w') /\
    trace w' = trace world0 ++ write_prologue 5 0 ++ body ++ relock_sequence /\
    writes body = if 5 mod 4 =? 0 then [] else [(5 - 5 mod 4, 0xFFFFFFFF)].
Proof.
  apply (write_of_zero_bytes 3 (bank32k never_busy) [] 5 world0).
  - lia.
  - unfold UINT_MAX; lia.
  - simpl; lia.
Defined.

(** X11: every byte of the buffer is programmed: for each [i < count] the
    write call issues a word at the aligned address below [offset + i] whose
    byte number [(offset + i) mod 4] is [buffer[i]]. *)
Theorem write_programs_every_byte fuel bank buffer offset count w i :
  0 <= offset -> 0 <= count <= INT_MAX - 3 -> offset + count + 3 <= UINT_MAX ->
  count / 4 + 2 < Z.of_nat fuel ->
  0 <= i < count ->
  exists w' body v,
    hc32l110_write_single fuel bank buffer offset count w = Some (ERROR_OK, w') /\
    trace w' = trace w ++ write_prologue offset count ++ body ++ relock_sequence /\
    In (offset + i - (offset + i) mod 4, v) (writes body) /\
    byte_of v ((offset + i) mod 4) = buffer_get buffer i.
Proof.
  intros Ho Hc Hend Hfuel Hi.
  destruct (write_single_run fuel bank buffer offset count w Ho Hc Hend Hfuel)
    as (w' & body & Hrun & Htr & Hw & _).
  unfold INT_MAX, UINT_MAX in *.
  pose proof (Z.mod_pos_bound offset 4 ltac:(lia)) as Hr.
  pose proof (Z.div_mod offset 4 ltac:(lia)) as Hdm.
  pose proof (Z.mod_pos_bound (offset mod 4 + i) 4 ltac:(lia)) as Hri.
  pose proof (Z.div_mod (offset mod 4 + i) 4 ltac:(lia)) as Hdi.
  assert (Hq : 0 <= (offset mod 4 + i) / 4) by (apply Z.div_pos; lia).
  assert (Hmod : (offset + i) mod 4 = (offset mod 4 + i) mod 4).
  { replace (offset + i) with (offset mod 4 + i + (offset / 4) * 4) by lia.
    apply Z.mod_add. lia. }
  set (j := Z.to_nat ((offset mod 4 + i) / 4)).
  assert (Hj : Z.of_nat j = (offset mod 4 + i) / 4) by (unfold j; lia).
  assert (Hjw : (j < word_count offset count)%nat).
  { pose proof (word_count_bounds offset count ltac:(lia)) as Hk. lia. }
  set (v := wrap32 (gather_word buffer count (- (offset mod 4) + 4 * Z.of_nat j))).
  assert (Hin : In (offset + i - (offset + i) mod 4, v) (program_words buffer offset count)).
  { unfold program_words. apply in_map_iff. exists j. split.
    - rewrite land_NOT3 by (unfold UINT_MAX; lia). fold v. f_equal. lia.
    - apply in_seq. lia. }
  exists w', body, v. split; [exact Hrun|]. split; [exact Htr|].
  split; [rewrite Hw; exact Hin|].
  rewrite (program_words_bytes buffer offset count _ v ((offset + i) mod 4) Ho
             ltac:(unfold INT_MAX; lia) ltac:(unfold UINT_MAX; lia) Hin ltac:(lia)).
  replace (offset + i - (offset + i) mod 4 + (offset + i) mod 4) with (offset + i) by lia.
  destruct (Z.leb_spec offset (offset + i)), (Z.ltb_spec (offset + i) (offset + count));
    try lia.
  cbn [andb]. f_equal. lia.
Qed.

Lemma write_programs_every_byte_witness :
  exists w' body v,
    hc32l110_write_single 100 (bank32k never_busy) [xaa; xbb; xcc] 2 3 world0
      = Some (ERROR_OK, w') /\
    trace w' = trace world0 ++ write_prologue 2 3 ++ body ++ relock_sequence /\
    In (2 + 2 - (2 + 2) mod 4, v) (writes body) /\
    byte_of v ((2 + 2) mod 4) = buffer_get [xaa; xbb; xcc] 2.
Proof.
  apply (write_programs_every_byte 100 (bank32k never_busy) [xaa; xbb; xcc] 2 3 world0 2).
  - lia.
  - unfold INT_MAX; lia.
  - unfold UINT_MAX; lia.
  - simpl; lia.
  - lia.
Defined.

(** ** Lock masks *)

Lemma floor_ceil_meets start_addr end_addr i :
  0 <= start_addr < end_addr ->
  ((start_addr / SPROT_SEC_SIZE <=? i)
   && (i <? (end_addr + SPROT_SEC_SIZE - 1) / SPROT_SEC_SIZE) = true
   <-> span_meets_region start_addr end_addr i).
Proof.
  intros Hspan. unfold span_meets_region, SPROT_SEC_SIZE.
  rewrite andb_true_iff, Z.leb_le, Z.ltb_lt.
  pose proof (Z.div_mod start_addr 4096 ltac:(lia)) as Hds.
  pose proof (Z.mod_pos_bound start_addr 4096 ltac:(lia)) as Hbs.
  pose proof (Z.div_mod (end_addr + 4096 - 1) 4096 ltac:(lia)) as Hde.
  pose proof (Z.mod_pos_bound (end_addr + 4096 - 1) 4096 ltac:(lia)) as Hbe.
  split.
  - intros [H1 H2]. exists (Z.max start_addr (i * 4096)). lia.
  - intros (a & Ha1 & Ha2). lia.
Qed.

Lemma wrap32_to_int32 z : wrap32 (to_int32 z) = wrap32 z.
Proof.
  unfold wrap32, to_int32. rewrite Zminus_mod_idemp_l.
  f_equal. lia.
Qed.

Lemma single_bit_mask z q :
  0 <= q < 32 ->
  (forall n, 0 <= n < 32 -> Z.testbit (wrap32 z) n = (q =? n)) ->
  wrap32 z = 2 ^ q.
Proof.
  intros Hq Hbits. apply Z.bits_inj'. intros n Hn.
  rewrite Z.pow2_bits_eqb by lia.
  destruct (Z.ltb_spec n 32) as [Hlt | Hge].
  - apply Hbits. lia.
  - unfold wrap32. rewrite Z.mod_pow2_bits_high by lia.
    symmetry. apply Z.eqb_neq. lia.
Qed.

Lemma no_bit_mask z :
  (forall n, 0 <= n < 32 -> Z.testbit (wrap32 z) n = false) -> wrap32 z = 0.
Proof.
  intros Hbits. apply Z.bits_inj'. intros n Hn. rewrite Z.bits_0.
  destruct (Z.ltb_spec n 32) as [Hlt | Hge].
  - apply Hbits. lia.
  - unfold wrap32. apply Z.mod_pow2_bits_high. lia.
Qed.

(** X12: for an empty span [a, a) the unlock routine writes the mask 0 when
    [a] lies on a 4 KiB boundary, and otherwise the single bit of the region
    that contains [a]. *)
Theorem sunlock_empty_span tgt a w :
  0 <= a -> a + SPROT_SEC_SIZE <= INT_MAX -> a / SPROT_SEC_SIZE < 32 ->
  trace (hc32l110_sunlock tgt a a w)
  = trace w ++ bypass_handshake
      ++ [EvWrite HC32L110_FLASH_SLOCK
            (if a mod SPROT_SEC_SIZE =? 0 then 0 else 2 ^ (a / SPROT_SEC_SIZE))].
Proof.
  intros Ha Hmax Hreg. rewrite trace_sunlock.
  enough (Hval : wrap32 (sunlock_mask a a)
                 = if a mod SPROT_SEC_SIZE =? 0 then 0 else 2 ^ (a / SPROT_SEC_SIZE))
    by (rewrite Hval; reflexivity).
  assert (Hq : 0 <= a / SPROT_SEC_SIZE) by (apply Z.div_pos; unfold SPROT_SEC_SIZE; lia).
  assert (Hbits : forall n, 0 <= n < 32 ->
            Z.testbit (wrap32 (sunlock_mask a a)) n
            = (a / SPROT_SEC_SIZE <=? n) && (n <? (a + SPROT_SEC_SIZE - 1) / SPROT_SEC_SIZE)).
  { intros n Hn. apply sunlock_mask_bits; assumption. }
  unfold SPROT_SEC_SIZE in *.
  pose proof (Z.div_mod a 4096 ltac:(lia)) as Hd.
  pose proof (Z.mod_pos_bound a 4096 ltac:(lia)) as Hb.
  destruct (Z.eqb_spec (a mod 4096) 0) as [Hz | Hnz].
  - assert (Hceil : (a + 4096 - 1) / 4096 = a / 4096).
    { symmetry. apply (Z.div_unique _ _ _ 4095); lia. }
    apply no_bit_mask. intros n Hn. rewrite Hbits, Hceil by assumption.
    destruct (Z.leb_spec (a / 4096) n), (Z.ltb_spec n (a / 4096)); try reflexivity. lia.
  - assert (Hceil : (a + 4096 - 1) / 4096 = a / 4096 + 1).
    { symmetry. apply (Z.div_unique _ _ _ (a mod 4096 - 1)); lia. }
    apply single_bit_mask; [lia|]. intros n Hn. rewrite Hbits, Hceil by assumption.
    destruct (Z.leb_spec (a / 4096) n), (Z.ltb_spec n (a / 4096 + 1)),
             (Z.eqb_spec (a / 4096) n); try reflexivity; lia.
Qed.

Lemma sunlock_empty_span_witness :
  trace (hc32l110_sunlock never_busy 4100 4100 world0)
  = trace world0 ++ bypass_handshake
      ++ [EvWrite HC32L110_FLASH_SLOCK
            (if 4100 mod SPROT_SEC_SIZE =? 0 then 0 else 2 ^ (4100 / SPROT_SEC_SIZE))].
Proof.
  apply (sunlock_empty_span never_busy 4100 world0).
  - lia.
  - unfold SPROT_SEC_SIZE, INT_MAX; lia.
  - reflexivity.
Defined.

Lemma sector_range_In first last x :
  In x (sector_range first last) <-> first <= x < last.
Proof.
  unfold sector_range. rewrite in_map_iff. split.
  - intros (k & <- & Hk). apply in_seq in Hk. lia.
  - intros Hx. exists (Z.to_nat (x - first)). split; [lia|].
    apply in_seq. lia.
Qed.

Lemma sector_prologue_writes x :
  0 <= x < 128 ->
  writes (sector_prologue 0 x)
  = [(HC32L110_FLASH_BYPASS, 0x5a5a); (HC32L110_FLASH_BYPASS, 0xa5a5);
     (HC32L110_FLASH_CR, FLASH_OP_ERASE_SECTOR);
     (HC32L110_FLASH_BYPASS, 0x5a5a); (HC32L110_FLASH_BYPASS, 0xa5a5);
     (HC32L110_FLASH_BYPASS, 0x5a5a); (HC32L110_FLASH_BYPASS, 0xa5a5);
     (HC32L110_FLASH_SLOCK, 2 ^ (x / 8));
     (HC32L110_FLASH_SLOCK, 2 ^ (x / 4));
     (FLASH_SECTOR_SIZE * x, 0)] /\
  (2 ^ (x / 4) = 2 ^ (x / 8) <-> x < 4).
Proof.
  intros Hx.
  pose proof (Z.div_mod x 8 ltac:(lia)) as Hd8.
  pose proof (Z.mod_pos_bound x 8 ltac:(lia)) as Hb8.
  pose proof (Z.div_mod x 4 ltac:(lia)) as Hd4.
  pose proof (Z.mod_pos_bound x 4 ltac:(lia)) as Hb4.
  assert (Hq8 : 0 <= x / 8 < 16) by lia.
  assert (Hq4 : 0 <= x / 4 < 32) by lia.
  split.
  - unfold sector_prologue, FLASH_SECTOR_SIZE. cbn [writes app bypass_handshake].
    rewrite (wrap32_small (x * 512)) by (unfold UINT_MAX; lia).
    rewrite !to_int32_small by (unfold INT_MAX; lia).
    rewrite wrap32_to_int32, Z.shiftl_1_l.
    rewrite (wrap32_small (2 ^ (x / 4))).
    2:{ unfold UINT_MAX. split; [apply Z.pow_nonneg; lia|].
        assert (2 ^ (x / 4) <= 2 ^ 31) by (apply Z.pow_le_mono_r; lia). lia. }
    assert (Hmask : wrap32 (sunlock_mask (0 + x * 512) (0 + x * 512 + 512)) = 2 ^ (x / 8)).
    { apply single_bit_mask; [lia|]. intros n Hn.
      rewrite sunlock_mask_bits by (unfold SPROT_SEC_SIZE, INT_MAX; lia).
      unfold SPROT_SEC_SIZE.
      assert (Hfloor : (0 + x * 512) / 4096 = x / 8).
      { symmetry. apply (Z.div_unique _ _ _ (512 * (x mod 8))); lia. }
      assert (Hceil : (0 + x * 512 + 512 + 4096 - 1) / 4096 = x / 8 + 1).
      { symmetry. apply (Z.div_unique _ _ _ (512 * (x mod 8) + 511)); lia. }
      rewrite Hfloor, Hceil.
      destruct (Z.leb_spec (x / 8) n), (Z.ltb_spec n (x / 8 + 1)),
               (Z.eqb_spec (x / 8) n); try reflexivity; lia. }
    rewrite Hmask. replace (0 + x * 512) with (512 * x) by lia. reflexivity.
  - split.
    + intros Heq. apply Z.pow_inj_r in Heq; lia.
    + intros Hlt. replace (x / 4) with 0 by lia. replace (x / 8) with 0 by lia.
      reflexivity.
Qed.

(** X13: on a bank based at 0, a per-sector erase of sectors below 128 that
    returns has made, between its start and the re-lock, exactly these bus
    writes for each sector [x] of [first, last) in turn: the handshake,
    CR <- ERASE_SECTOR, the handshake twice, the lock register <- the single
    bit of region [x / 8] (the region that holds the sector), the lock
    register <- bit [x / 4], and the trigger 0 at address [512 * x]. The two
    lock words agree exactly for the sectors [x < 4]. *)
Theorem sector_erase_lock_writes fuel bank first last w rc w' :
  base bank = 0 -> 0 <= first -> last <= 128 ->
  is_mass_erase first last (num_sectors bank) = false ->
  hc32l110_erase fuel bank first last w = Some (rc, w') ->
  exists evs,
    trace w' = trace w ++ evs ++ relock_sequence /\
    writes evs
    = concat (map (fun x =>
        [(HC32L110_FLASH_BYPASS, 0x5a5a); (HC32L110_FLASH_BYPASS, 0xa5a5);
         (HC32L110_FLASH_CR, FLASH_OP_ERASE_SECTOR);
         (HC32L110_FLASH_BYPASS, 0x5a5a); (HC32L110_FLASH_BYPASS, 0xa5a5);
         (HC32L110_FLASH_BYPASS, 0x5a5a); (HC32L110_FLASH_BYPASS, 0xa5a5);
         (HC32L110_FLASH_SLOCK, 2 ^ (x / 8));
         (HC32L110_FLASH_SLOCK, 2 ^ (x / 4));
         (FLASH_SECTOR_SIZE * x, 0)]) (sector_range first last)) /\
    (forall x, first <= x < last -> (2 ^ (x / 4) = 2 ^ (x / 8) <-> x < 4)).
Proof.
  intros Hbase Hfirst Hlast Hsel H.
  destruct (sector_erase_trace fuel bank first last w rc w' Hsel H)
    as (evs & Htr & _ & Hw).
  exists evs. split; [exact Htr|]. split.
  - rewrite Hw, Hbase. f_equal. apply map_ext_in. intros x Hx.
    apply sector_range_In in Hx.
    apply (proj1 (sector_prologue_writes x ltac:(lia))).
  - intros x Hx. apply (proj2 (sector_prologue_writes x ltac:(lia))).
Qed.

Lemma sector_erase_lock_writes_witness :
  exists evs,
    sector_prologue 0 9 ++ [EvPoll 50; EvRead HC32L110_FLASH_CR 0] ++ relock_sequence
    = trace world0 ++ evs ++ relock_sequence /\
    writes evs
    = concat (map (fun x =>
        [(HC32L110_FLASH_BYPASS, 0x5a5a); (HC32L110_FLASH_BYPASS, 0xa5a5);
         (HC32L110_FLASH_CR, FLASH_OP_ERASE_SECTOR);
         (HC32L110_FLASH_BYPASS, 0x5a5a); (HC32L110_FLASH_BYPASS, 0xa5a5);
         (HC32L110_FLASH_BYPASS, 0x5a5a); (HC32L110_FLASH_BYPASS, 0xa5a5);
         (HC32L110_FLASH_SLOCK, 2 ^ (x / 8));
         (HC32L110_FLASH_SLOCK, 2 ^ (x / 4));
         (FLASH_SECTOR_SIZE * x, 0)]) (sector_range 9 10)) /\
    (forall x, 9 <= x < 10 -> (2 ^ (x / 4) = 2 ^ (x / 8) <-> x < 4)).
Proof.
  apply (sector_erase_lock_writes 100 (bank32k never_busy) 9 10 world0 ERROR_OK
           {| now := 0; nreads := 1;
              trace := sector_prologue 0 9 ++ [EvPoll 50; EvRead HC32L110_FLASH_CR 0]
                         ++ relock_sequence |}).
  - reflexivity.
  - lia.
  - lia.
  - reflexivity.
  - reflexivity.
Defined.

Lemma write_prologue_mask offset count i :
  0 <= offset -> 0 < count -> offset + count + 3 <= 32 * SPROT_SEC_SIZE ->
  0 <= i < 32 ->
  exists mask,
    write_prologue offset count
    = bypass_handshake ++ [EvWrite HC32L110_FLASH_CR FLASH_OP_PROGRAM]
        ++ bypass_handshake ++ [EvWrite HC32L110_FLASH_SLOCK mask] /\
    (Z.testbit mask i = true <->
     span_meets_region (offset - offset mod 4)
                       (offset + count + 3 - (offset + count + 3) mod 4) i) /\
    (offset + count <= 32768 -> 8 <= i -> Z.testbit mask i = false).
Proof.
  intros Ho Hc Hmax Hi. unfold SPROT_SEC_SIZE in Hmax.
  pose proof (Z.mod_pos_bound offset 4 ltac:(lia)) as Hr.
  pose proof (Z.div_mod offset 4 ltac:(lia)) as Hdm.
  pose proof (Z.mod_pos_bound (offset + count + 3) 4 ltac:(lia)) as Hr'.
  pose proof (Z.div_mod (offset + count + 3) 4 ltac:(lia)) as Hdm'.
  eexists. split; [reflexivity|].
  rewrite (wrap32_small (offset + count + 3)) by (unfold UINT_MAX; lia).
  rewrite !land_NOT3 by (unfold UINT_MAX; lia).
  rewrite !to_int32_small by (unfold INT_MAX; lia).
  rewrite sunlock_mask_bits by (unfold SPROT_SEC_SIZE, INT_MAX; lia).
  pose proof (floor_ceil_meets (offset - offset mod 4)
                (offset + count + 3 - (offset + count + 3) mod 4) i ltac:(lia)) as Hiff.
  split; [exact Hiff|].
  intros Hbank Hi8.
  destruct ((_ <=? i) && (i <? _)); [|reflexivity].
  destruct (proj1 Hiff eq_refl) as (a & Ha & Hreg). unfold SPROT_SEC_SIZE in Hreg. lia.
Qed.

(** X14: a write of [count > 0] bytes whose range lies within the 32 lock
    regions returns ERROR_OK having written the lock register exactly once
    before the first word is programmed, right after the handshake, and the
    mask written has bit [i] set exactly when lock region [i] meets the
    word-aligned span of the range; for a range inside a 32 KiB bank no bit
    above bit 7 is set. *)
Theorem write_unlock_mask fuel bank buffer offset count w i :
  0 <= offset -> 0 < count -> offset + count + 3 <= 32 * SPROT_SEC_SIZE ->
  count / 4 + 2 < Z.of_nat fuel ->
  0 <= i < 32 ->
  exists w' mask body,
    hc32l110_write_single fuel bank buffer offset count w = Some (ERROR_OK, w') /\
    trace w'
    = trace w ++ (bypass_handshake ++ [EvWrite HC32L110_FLASH_CR FLASH_OP_PROGRAM]
                    ++ bypass_handshake ++ [EvWrite HC32L110_FLASH_SLOCK mask])
        ++ body ++ relock_sequence /\
    writes body = program_words buffer offset count /\
    (Z.testbit mask i = true <->
     span_meets_region (offset - offset mod 4)
                       (offset + count + 3 - (offset + count + 3) mod 4) i) /\
    (offset + count <= 32768 -> 8 <= i -> Z.testbit mask i = false).
Proof.
  intros Ho Hc Hmax Hfuel Hi.
  destruct (write_single_run fuel bank buffer offset count w Ho
              ltac:(unfold SPROT_SEC_SIZE, INT_MAX in *; lia)
              ltac:(unfold SPROT_SEC_SIZE, UINT_MAX in *; lia) Hfuel)
    as (w' & body & Hrun & Htr & Hw & _).
  destruct (write_prologue_mask offset count i Ho Hc Hmax Hi)
    as (mask & Hpro & Hbits & Hhigh).
  exists w', mask, body. rewrite Hpro in Htr. auto.
Qed.

Lemma write_unlock_mask_witness :
  exists w' mask body,
    hc32l110_write_single 100 (bank32k never_busy) [xaa; xbb; xcc] 4094 3 world0
      = Some (ERROR_OK, w') /\
    trace w'
    = trace world0 ++ (bypass_handshake ++ [EvWrite HC32L110_FLASH_CR FLASH_OP_PROGRAM]
                         ++ bypass_handshake ++ [EvWrite HC32L110_FLASH_SLOCK mask])
        ++ body ++ relock_sequence /\
    writes body = program_words [xaa; xbb; xcc] 4094 3 /\
    (Z.testbit mask 1 = true <->
     span_meets_region (4094 - 4094 mod 4) (4094 + 3 + 3 - (4094 + 3 + 3) mod 4) 1) /\
    (4094 + 3 <= 32768 -> 8 <= 1 -> Z.testbit mask 1 = false).
Proof.
  apply (write_unlock_mask 100 (bank32k never_busy) [xaa; xbb; xcc] 4094 3 world0 1).
  - lia.
  - lia.
  - unfold SPROT_SEC_SIZE; lia.
  - simpl; lia.
  - lia.
Defined.

(** ** The prober and the sector table *)

Lemma fill_sectors_In n s :
  Z.of_nat n * FLASH_SECTOR_SIZE <= UINT_MAX ->
  (In s (fill_sectors n 0) <->
   exists i, (i < n)%nat /\
             s = {| sec_offset := FLASH_SECTOR_SIZE * Z.of_nat i;
                    sec_size := FLASH_SECTOR_SIZE; is_erased := -1; is_protected := 0 |}).
Proof.
  intros Hmax. split.
  - intros Hin. apply (In_nth _ _ s) in Hin. destruct Hin as (i & Hi & Hnth).
    rewrite fill_sectors_length in Hi. exists i. split; [exact Hi|].
    rewrite fill_sectors_nth in Hnth by (unfold FLASH_SECTOR_SIZE in *; lia).
    rewrite <- Hnth. f_equal.
  - intros (i & Hi & ->).
    rewrite <- (Z.add_0_l (FLASH_SECTOR_SIZE * Z.of_nat i)).
    rewrite <- (fill_sectors_nth n 0 i
                  {| sec_offset := 0; sec_size := 0; is_erased := 0; is_protected := 0 |})
      by (unfold FLASH_SECTOR_SIZE in *; lia).
    apply nth_In. rewrite fill_sectors_length. exact Hi.
Qed.

(** X15: after a successful probe the sectors tile the bank from 0 without
    gap or overlap: a byte position lies in some sector exactly when it is
    below 512 * (size / 512), and then in exactly one; the table has between
    8 and 64 sectors, and when the reported size is not a multiple of 512 the
    last [size mod 512] bytes of the bank belong to no sector. *)
Theorem probe_sectors_tile_bank bank w bank' w' p :
  hc32l110_probe bank w = (ERROR_OK, bank', w') ->
  8 <= num_sectors bank' <= 64 /\
  length (sectors bank') = Z.to_nat (num_sectors bank') /\
  FLASH_SECTOR_SIZE * num_sectors bank' = size bank' - size bank' mod FLASH_SECTOR_SIZE /\
  ((exists s, In s (sectors bank') /\ in_sector s p) <->
   0 <= p < FLASH_SECTOR_SIZE * num_sectors bank') /\
  (forall s1 s2,
     In s1 (sectors bank') -> In s2 (sectors bank') ->
     in_sector s1 p -> in_sector s2 p -> s1 = s2).
Proof.
  unfold hc32l110_probe. cbn [target_read_u32].
  set (flash_size := wrap32 _).
  destruct (Z.gtb_spec flash_size 32768) as [Hgt | Hle]; cbn [orb]; [discriminate|].
  destruct (Z.ltb_spec flash_size 4096) as [Hlt | Hge]; [discriminate|].
  intros H. injection H as <- _. cbn [num_sectors sectors size].
  unfold FLASH_SECTOR_SIZE.
  pose proof (Z.div_mod flash_size 512 ltac:(lia)) as Hd.
  pose proof (Z.mod_pos_bound flash_size 512 ltac:(lia)) as Hb.
  assert (Hn : 8 <= flash_size / 512 <= 64) by lia.
  assert (Hmax : Z.of_nat (Z.to_nat (flash_size / 512)) * FLASH_SECTOR_SIZE <= UINT_MAX)
    by (unfold FLASH_SECTOR_SIZE, UINT_MAX; lia).
  split; [exact Hn|]. split; [apply fill_sectors_length|]. split; [lia|].
  split; [split|].
  - intros (s & Hin & Hp). apply fill_sectors_In in Hin; [|exact Hmax].
    destruct Hin as (i & Hi & ->). unfold in_sector, FLASH_SECTOR_SIZE in Hp.
    cbn [sec_offset sec_size] in Hp. lia.
  - intros Hp.
    pose proof (Z.div_mod p 512 ltac:(lia)) as Hdp.
    pose proof (Z.mod_pos_bound p 512 ltac:(lia)) as Hbp.
    exists {| sec_offset := FLASH_SECTOR_SIZE * Z.of_nat (Z.to_nat (p / 512));
              sec_size := FLASH_SECTOR_SIZE; is_erased := -1; is_protected := 0 |}.
    split.
    + apply fill_sectors_In; [exact Hmax|]. exists (Z.to_nat (p / 512)).
      split; [lia | reflexivity].
    + unfold in_sector, FLASH_SECTOR_SIZE. cbn [sec_offset sec_size]. lia.
  - intros s1 s2 H1 H2 Hp1 Hp2.
    apply fill_sectors_In in H1; [|exact Hmax].
    apply fill_sectors_In in H2; [|exact Hmax].
    destruct H1 as (i1 & _ & ->). destruct H2 as (i2 & _ & ->).
    unfold in_sector, FLASH_SECTOR_SIZE in *. cbn [sec_offset sec_size] in *.
    assert (i1 = i2) by lia. subst. reflexivity.
Qed.

Lemma probe_sectors_tile_bank_witness :
  8 <= 8 <= 64 /\
  length (fill_sectors 8 0) = Z.to_nat 8 /\
  FLASH_SECTOR_SIZE * 8 = 4097 - 4097 mod FLASH_SECTOR_SIZE /\
  ((exists s, In s (fill_sectors 8 0) /\ in_sector s 4096) <->
   0 <= 4096 < FLASH_SECTOR_SIZE * 8) /\
  (forall s1 s2,
     In s1 (fill_sectors 8 0) -> In s2 (fill_sectors 8 0) ->
     in_sector s1 4096 -> in_sector s2 4096 -> s1 = s2).
Proof.
  apply (probe_sectors_tile_bank (bank32k (reporting 4097)) world0
           {| bank_target := reporting 4097; base := 0; size := 4097;
              num_sectors := 8; sectors := fill_sectors 8 0 |}
           {| now := 0; nreads := 1; trace := [EvRead HC32L110_FLASH_SIZE 4097] |}
           4096).
  reflexivity.
Defined.

(** X16: probing again gives the same result as long as the device reports
    the same size: a second probe returns the same code and leaves the bank
    exactly as the first probe left it, whatever size and sector table the
    bank had before. *)
Theorem probe_idempotent bank w :
  wrap32 (read_reply (bank_target bank) HC32L110_FLASH_SIZE (S (nreads w)))
  = wrap32 (read_reply (bank_target bank) HC32L110_FLASH_SIZE (nreads w)) ->
  let '(rc1, bank1, w1) := hc32l110_probe bank w in
  let '(rc2, bank2, w2) := hc32l110_probe bank1 w1 in
  rc2 = rc1 /\ (rc1 = ERROR_OK -> bank2 = bank1) /\ (rc1 <> ERROR_OK -> bank2 = bank).
Proof.
  intros Hsame. unfold hc32l110_probe. cbn [target_read_u32].
  set (s1 := wrap32 (read_reply (bank_target bank) HC32L110_FLASH_SIZE (nreads w))) in *.
  destruct ((s1 >? 32768) || (s1 <? 4096)) eqn:E1.
  - cbn [nreads target_read_u32]. rewrite Hsame, E1.
    split; [reflexivity|]. split; [discriminate | reflexivity].
  - cbn [nreads bank_target target_read_u32]. rewrite Hsame, E1.
    split; [reflexivity|]. split; [reflexivity|]. intros H. exfalso. apply H. reflexivity.
Qed.

Lemma probe_idempotent_witness :
  let '(rc1, bank1, w1) := hc32l110_probe (bank32k (reporting 16384)) world0 in
  let '(rc2, bank2, w2) := hc32l110_probe bank1 w1 in
  rc2 = rc1 /\ (rc1 = ERROR_OK -> bank2 = bank1) /\
  (rc1 <> ERROR_OK -> bank2 = bank32k (reporting 16384)).
Proof.
  apply (probe_idempotent (bank32k (reporting 16384)) world0).
  reflexivity.
Defined.

(** ** Bank set-up, probe and erase together *)

(** X17: on a bank set up by the bank command and sized by a successful
    probe, a per-sector erase of sectors below [num_sectors] writes only to
    the three flash-controller registers and, with value 0, to sector-aligned
    addresses of sectors that lie wholly inside the bank. *)
Theorem sector_erase_stays_in_bank fuel bank0 w bank2 w1 first last rc w2 :
  hc32l110_probe (snd (hc32l110_flash_bank_command bank0)) w = (ERROR_OK, bank2, w1) ->
  0 <= first -> last <= num_sectors bank2 ->
  is_mass_erase first last (num_sectors bank2) = false ->
  hc32l110_erase fuel bank2 first last w1 = Some (rc, w2) ->
  exists evs,
    trace w2 = trace w1 ++ evs /\
    forall a v,
      In (a, v) (writes evs) ->
      (a = HC32L110_FLASH_BYPASS \/ a = HC32L110_FLASH_CR \/ a = HC32L110_FLASH_SLOCK) \/
      (v = 0 /\ a mod FLASH_SECTOR_SIZE = 0 /\
       0 <= a /\ a + FLASH_SECTOR_SIZE <= size bank2).
Proof.
  intros Hprobe Hfirst Hlast Hsel Herase.
  assert (Hbank : base bank2 = 0 /\
                  FLASH_SECTOR_SIZE * num_sectors bank2 <= size bank2 /\
                  num_sectors bank2 <= 64).
  { unfold hc32l110_probe in Hprobe. cbn [target_read_u32] in Hprobe.
    set (flash_size := wrap32 _) in Hprobe.
    destruct (Z.gtb_spec flash_size 32768) as [Hgt | Hle]; cbn [orb] in Hprobe;
      [discriminate|].
    destruct (Z.ltb_spec flash_size 4096) as [Hlt | Hge]; [discriminate|].
    injection Hprobe as <- _. cbn [base num_sectors size snd hc32l110_flash_bank_command].
    unfold FLASH_SECTOR_SIZE.
    pose proof (Z.div_mod flash_size 512 ltac:(lia)) as Hd.
    pose proof (Z.mod_pos_bound flash_size 512 ltac:(lia)) as Hb.
    repeat split; lia. }
  destruct Hbank as (Hbase & Hsize & Hn64).
  destruct (sector_erase_trace fuel bank2 first last w1 rc w2 Hsel Herase)
    as (evs & Htr & _ & Hw).
  exists (evs ++ relock_sequence). split; [exact Htr|].
  intros a v Hin. rewrite writes_app, Hw in Hin. apply in_app_or in Hin.
  destruct Hin as [Hin | Hin].
  - apply in_concat in Hin. destruct Hin as (l & Hl & Hin).
    apply in_map_iff in Hl. destruct Hl as (x & <- & Hx).
    apply sector_range_In in Hx. rewrite Hbase in Hin.
    unfold sector_prologue in Hin. cbn [writes app bypass_handshake] in Hin.
    unfold FLASH_SECTOR_SIZE in *.
    rewrite (wrap32_small (x * 512)) in Hin by (unfold UINT_MAX; lia).
    repeat (destruct Hin as [Hin | Hin];
            [injection Hin as <- <-; try (left; tauto) |]); [|contradiction].
    right. split; [reflexivity|]. split; [|lia].
    apply Z.mod_mul. lia.
  - left. cbn in Hin.
    repeat (destruct Hin as [Hin | Hin]; [injection Hin as <- _; tauto |]).
    contradiction.
Qed.

Lemma sector_erase_stays_in_bank_witness :
  exists evs,
    [EvRead HC32L110_FLASH_SIZE 4096] ++ sector_prologue 0 2
      ++ [EvPoll 50; EvRead HC32L110_FLASH_CR 4096] ++ relock_sequence
    = [EvRead HC32L110_FLASH_SIZE 4096] ++ evs /\
    forall a v,
      In (a, v) (writes evs) ->
      (a = HC32L110_FLASH_BYPASS \/ a = HC32L110_FLASH_CR \/ a = HC32L110_FLASH_SLOCK) \/
      (v = 0 /\ a mod FLASH_SECTOR_SIZE = 0 /\
       0 <= a /\ a + FLASH_SECTOR_SIZE <= 4096).
Proof.
  apply (sector_erase_stays_in_bank 100 (bank32k (reporting 4096)) world0
           {| bank_target := reporting 4096; base := 0; size := 4096;
              num_sectors := 8; sectors := fill_sectors 8 0 |}
           {| now := 0; nreads := 1; trace := [EvRead HC32L110_FLASH_SIZE 4096] |}
           2 3 ERROR_OK
           {| now := 0; nreads := 2;
              trace := [EvRead HC32L110_FLASH_SIZE 4096] ++ sector_prologue 0 2
                ++ [EvPoll 50; EvRead HC32L110_FLASH_CR 4096] ++ relock_sequence |}).
  - reflexivity.
  - lia.
  - simpl; lia.
  - reflexivity.
  - reflexivity.
Defined.

(** ** The lock register at the moment of each trigger *)







